(** * api-bate-papo-uol: the chat-room backend of [src/app.js]

    A shallow embedding of the Express application: the five request
    handlers, the [removeInactiveUsers] sweep, and the pieces of the
    JavaScript runtime and of the libraries (joi, dayjs, the MongoDB
    driver) the handlers call, followed by the properties of the
    handlers and of the sweep.  A handler is a computation over the
    store, one awaited driver call after the other; the sweep and the
    registration are given a second time with what other handlers
    write between their calls.

    Strings are byte strings (the UTF-8 encoding of the JavaScript
    string); timestamps are integers, milliseconds since the epoch; a
    field of a stored document that holds a string or null is an
    [option string]. *)

From Stdlib Require Import ZArith Ascii String Lia.
From stdpp Require Import base tactics decidable option list strings.

Local Open Scope string_scope.
Local Open Scope list_scope.
Local Open Scope Z_scope.

(** ** The JavaScript runtime the handlers rely on *)

Module Js.

(** A Number: an IEEE binary64 value.  A finite value is [m * 2 ^ e];
    the two zeros are not told apart (no handler depends on the sign
    of zero). *)
Inductive number :=
| NaN
| Inf (negative : bool)
| Fin (m e : Z).

Definition code (c : ascii) : Z := Z.of_N (N_of_ascii c).

(** The value of [c] as a digit of the given radix. *)
Definition digit (radix : Z) (c : ascii) : option Z :=
  let n := code c in
  let d := if (48 <=? n) && (n <=? 57) then n - 48
           else if (97 <=? n) && (n <=? 122) then n - 87
           else if (65 <=? n) && (n <=? 90) then n - 55
           else radix in
  if d <? radix then Some d else None.

(** Reads the longest run of digits at the head of [s], continuing
    the value [acc] and the count [n]; returns the rest. *)
Fixpoint span_digits (radix : Z) (s : list ascii) (acc n : Z)
  : Z * Z * list ascii :=
  match s with
  | c :: r =>
      match digit radix c with
      | Some d => span_digits radix r (acc * radix + d) (n + 1)
      | None => (acc, n, s)
      end
  | [] => (acc, n, [])
  end.

Definition is_nil {A} (l : list A) : bool :=
  match l with [] => true | _ => false end.

Definition sign (s : list ascii) : bool * list ascii :=
  match s with
  | "-"%char :: r => (true, r)
  | "+"%char :: r => (false, r)
  | _ => (false, s)
  end.

(** ExponentPart, or nothing: the decimal exponent. *)
Definition exponent_part (s : list ascii) : option Z :=
  match s with
  | [] => Some 0
  | c :: r =>
      if (code c =? 101) || (code c =? 69) then
        let (neg, r') := sign r in
        let '(v, n, rest) := span_digits 10 r' 0 0 in
        if (0 <? n) && is_nil rest then Some (if neg then - v else v)
        else None
      else None
  end.

(** StrUnsignedDecimalLiteral without [Infinity]: the literal denotes
    [m * 10 ^ x] for the returned [(m, x)]. *)
Definition unsigned_decimal (s : list ascii) : option (Z * Z) :=
  let '(i, ni, r1) := span_digits 10 s 0 0 in
  let '(m, nf, r2) :=
    match r1 with
    | "."%char :: r => span_digits 10 r i 0
    | _ => (i, 0, r1)
    end in
  if ni + nf =? 0 then None
  else match exponent_part r2 with
       | Some x => Some (m, x - nf)
       | None => None
       end.

(** NonDecimalIntegerLiteral: [0x], [0o], [0b] and digits. *)
Definition non_decimal (s : list ascii) : option Z :=
  match s with
  | "0"%char :: c :: r =>
      let n := code c in
      let radix := if (n =? 120) || (n =? 88) then 16
                   else if (n =? 111) || (n =? 79) then 8
                   else if (n =? 98) || (n =? 66) then 2
                   else 0 in
      if radix =? 0 then None
      else let '(v, k, rest) := span_digits radix r 0 0 in
           if (0 <? k) && is_nil rest then Some v else None
  | _ => None
  end.

Definition round_half_even (n d : Z) : Z :=
  let q := n / d in
  let r := n mod d in
  if 2 * r <? d then q
  else if d <? 2 * r then q + 1
  else if Z.even q then q else q + 1.

(** The binary64 value nearest to [n / d] (ties to even), for
    [0 <= n] and [0 < d]: 53 bits of precision, least exponent
    [-1074], overflow to infinity at [2 ^ 1024]. *)
Definition binary64 (n d : Z) : number :=
  if n =? 0 then Fin 0 0
  else
    let e0 := Z.log2 n - Z.log2 d in
    let ex := if n * 2 ^ Z.max 0 (- e0) <? d * 2 ^ Z.max 0 e0
              then e0 - 1 else e0 in
    let e := Z.max (ex - 52) (-1074) in
    let m := round_half_even (n * 2 ^ Z.max 0 (- e)) (d * 2 ^ Z.max 0 e) in
    if (971 <? e) || ((e =? 971) && (m =? 2 ^ 53)) then Inf false
    else Fin m e.

Definition negate (x : number) : number :=
  match x with
  | NaN => NaN
  | Inf s => Inf (negb s)
  | Fin m e => Fin (- m) e
  end.

(** StrWhiteSpaceChar: white space and line terminators, each as its
    UTF-8 bytes. *)
Definition white_space : list (list Z) :=
  [ [9]; [10]; [11]; [12]; [13]; [32]; [194; 160]; [225; 154; 128];
    [226; 128; 128]; [226; 128; 129]; [226; 128; 130]; [226; 128; 131];
    [226; 128; 132]; [226; 128; 133]; [226; 128; 134]; [226; 128; 135];
    [226; 128; 136]; [226; 128; 137]; [226; 128; 138]; [226; 128; 168];
    [226; 128; 169]; [226; 128; 175]; [226; 129; 159]; [227; 128; 128];
    [239; 187; 191] ].

Fixpoint starts_with (p : list Z) (s : list ascii) : option (list ascii) :=
  match p, s with
  | [], _ => Some s
  | a :: p', b :: s' => if a =? code b then starts_with p' s' else None
  | _ :: _, [] => None
  end.

Fixpoint drop_one (ws : list (list Z)) (s : list ascii)
  : option (list ascii) :=
  match ws with
  | [] => None
  | p :: ws' =>
      match starts_with p s with
      | Some r => Some r
      | None => drop_one ws' s
      end
  end.

Fixpoint strip (fuel : nat) (ws : list (list Z)) (s : list ascii)
  : list ascii :=
  match fuel with
  | O => s
  | S f => match drop_one ws s with
           | Some r => strip f ws r
           | None => s
           end
  end.

Definition trim (s : list ascii) : list ascii :=
  let s1 := strip (length s) white_space s in
  rev (strip (length s1) (map (@rev Z) white_space) (rev s1)).

(** What a string reads as under the StringNumericLiteral grammar:
    nothing, an infinity, or the mathematical value [m * 10 ^ x],
    negated or not, with [0 <= m]. *)
Inductive literal :=
| NotNumeric
| Infinite (negative : bool)
| Exact (negative : bool) (m x : Z).

(** The reading of a string: white space is trimmed, the empty string
    is 0. *)
Definition StringNumericLiteral (str : string) : literal :=
  let s := trim (list_ascii_of_string str) in
  if is_nil s then Exact false 0 0
  else match non_decimal s with
       | Some v => Exact false v 0
       | None =>
           let (neg, r) := sign s in
           if String.eqb (string_of_list_ascii r) "Infinity"
           then Infinite neg
           else match unsigned_decimal r with
                | Some (m, x) => Exact neg m x
                | None => NotNumeric
                end
       end.

(** The Number a reading is rounded to. *)
Definition round (l : literal) : number :=
  match l with
  | NotNumeric => NaN
  | Infinite neg => Inf neg
  | Exact neg m x =>
      let v := if 0 <=? x then binary64 (m * 10 ^ x) 1
               else binary64 m (10 ^ (- x)) in
      if neg then negate v else v
  end.

(** StringToNumber (ECMA-262 7.1.4.1.1): a string outside the
    StringNumericLiteral grammar is NaN, and the literal's
    mathematical value is rounded to binary64. *)
Definition StringToNumber (str : string) : number :=
  round (StringNumericLiteral str).

(** [Number.isInteger]. *)
Definition isInteger (x : number) : bool :=
  match x with
  | Fin m e => if 0 <=? e then true else m mod 2 ^ (- e) =? 0
  | _ => false
  end.

(** [x < k] for an integer [k]; false when [x] is NaN. *)
Definition ltZ (x : number) (k : Z) : bool :=
  match x with
  | NaN => false
  | Inf s => s
  | Fin m e => if 0 <=? e then m * 2 ^ e <? k else m <? k * 2 ^ (- e)
  end.

(** The integer a finite number truncates to (ToIntegerOrInfinity on
    the finite part). *)
Definition truncate (m e : Z) : Z :=
  if 0 <=? e then m * 2 ^ e else Z.quot m (2 ^ (- e)).

(** [Array.prototype.slice(start)] with no end: a negative start
    counts from the end of the array. *)
Definition slice {A} (l : list A) (start : number) : list A :=
  let len := Z.of_nat (length l) in
  let k := match start with
           | NaN => 0
           | Inf true => 0
           | Inf false => len
           | Fin m e =>
               let rel := truncate m e in
               if rel <? 0 then Z.max (len + rel) 0 else Z.min rel len
           end in
  drop (Z.to_nat k) l.

(** A parsed query-string value ([req.query.x] when present): a
    string, an array of values, or an object with its own members
    ([x[k]=v] in the query string; Express parses it with
    [allowPrototypes], so [k] may be [toString]). *)
#[local] Unset Elimination Schemes.
Inductive qvalue :=
| QString (s : string)
| QArray (items : list qvalue)
| QObject (members : list (string * qvalue)).
#[local] Set Elimination Schemes.

Definition join (sep : string) (l : list string) : string :=
  match l with
  | [] => ""
  | s :: r => fold_left (fun acc x => acc +:+ sep +:+ x) r s
  end.

(** ToPrimitive of a query value, which is a string; [None] when it
    throws a TypeError.  An array joins the strings of its elements
    with commas.  An object answers through [Object.prototype.toString]
    with "[object Object]", unless it has a member [toString] of its
    own: that member is a parsed value, not a function, so it is passed
    over, [valueOf] returns the object itself, and the conversion
    throws. *)
Fixpoint to_string (v : qvalue) : option string :=
  match v with
  | QString s => Some s
  | QArray items =>
      let strings :=
        (fix each (l : list qvalue) : option (list string) :=
           match l with
           | [] => Some []
           | x :: r =>
               match to_string x, each r with
               | Some s, Some ss => Some (s :: ss)
               | _, _ => None
               end
           end) items in
      match strings with
      | Some ss => Some (join "," ss)
      | None => None
      end
  | QObject members =>
      if existsb (fun kv => String.eqb (fst kv) "toString") members
      then None
      else Some "[object Object]"
  end.

(** Unary plus, [+v]: the Number, or [None] when the conversion
    throws. *)
Definition plus (v : qvalue) : option number :=
  match to_string v with
  | Some s => Some (StringToNumber s)
  | None => None
  end.

(** A JSON value, as [express.json()] hands the request body to a
    handler.  A number keeps its literal; an object keeps its own
    members, one for each key, in the order [Object.keys] lists them.
    [JSON.parse] makes every member an own property, one named
    [__proto__] included. *)
#[local] Unset Elimination Schemes.
Inductive json :=
| JNull
| JBool (b : bool)
| JNumber (literal : string)
| JString (s : string)
| JArray (items : list json)
| JObject (members : list (string * json)).
#[local] Set Elimination Schemes.

(** [o[k]] on a list of members: [None] is [undefined]. *)
Fixpoint member (k : string) (members : list (string * json))
  : option json :=
  match members with
  | [] => None
  | (k', v) :: r => if String.eqb k k' then Some v else member k r
  end.

(** Property access [v.k] for a key that [Object.prototype] does not
    have: the own member, or [undefined]. *)
Definition prop (v : json) (k : string) : option json :=
  match v with
  | JObject members => member k members
  | _ => None
  end.

(** [v.k] as the handlers hand it to the driver, which they do after
    validation only: an own member [k] has passed [joi.string()] and
    is a string; without one [v.k] is [undefined], which the driver
    writes as null ([None]). *)
Definition field (v : json) (k : string) : option string :=
  match prop v k with
  | Some (JString s) => Some s
  | _ => None
  end.

(** The string [v.k] is, when it is one. *)
Definition prop_string (v : json) (k : string) : string :=
  match prop v k with
  | Some (JString s) => s
  | _ => ""
  end.

End Js.

(** ** joi: the part of the validator the two schemas use

    [joi.object({k: joi.string().required(), ...})] and
    [.valid(v1, v2, ...)], validated with [{ abortEarly: false }].
    Rules of joi 17: a key of the schema that is absent is
    [any.required]; a value outside a [valid] list is [any.only]; a
    value that is not a string is [string.base], the empty string is
    [string.empty]; a key the schema does not name is [object.unknown],
    and a body that is not an object is [object.base].  Errors come in
    the schema's key order, then the unknown keys in the body's
    order.

    joi validates a shallow copy of the body, made with
    [Object.assign]: assigning the member [__proto__] sets the copy's
    prototype when the member is an object and does nothing otherwise.
    The copy has no key [__proto__], and reads a key it does not have
    itself from that prototype. *)

Module Joi.

Record detail := { message : string; path : list string; type : string }.

Record ValidationError := { details : list detail }.

Record result := { value : Js.json; error : option ValidationError }.

Record options := { abortEarly : bool }.

(** [joi.string().required()], with the [valid] list if there is one. *)
Record key_schema := { key : string; only : option (list string) }.

Definition object_schema := list key_schema.

Definition dq : string := String (ascii_of_nat 34) EmptyString.

(** The label of a key in a message: the key between double quotes,
    and [value] for the empty key, as for the body itself. *)
Definition label (k : string) : string :=
  dq +:+ (if String.eqb k "" then "value" else k) +:+ dq.

Definition report (k : string) (ty msg : string) : detail :=
  {| message := label k +:+ msg; path := [k]; type := ty |}.

(** The base type check of [joi.string()]. *)
Definition string_base (k : string) (v : Js.json) : list detail :=
  match v with
  | Js.JString s =>
      if String.eqb s "" then
        [report k "string.empty" " is not allowed to be empty"]
      else []
  | _ => [report k "string.base" " must be a string"]
  end.

Definition is_allowed (vs : list string) (v : Js.json) : bool :=
  match v with
  | Js.JString s => existsb (String.eqb s) vs
  | _ => false
  end.

Definition only_message (vs : list string) : string :=
  " must be " +:+ (if (length vs =? 1)%nat then "" else "one of ")
  +:+ "[" +:+ Js.join ", " vs +:+ "]".

(** Every violation of one key of the schema. *)
Definition validate_key (ks : key_schema) (v : option Js.json)
  : list detail :=
  match v with
  | None => [report (key ks) "any.required" " is required"]
  | Some x =>
      match only ks with
      | Some vs =>
          if is_allowed vs x then []
          else report (key ks) "any.only" (only_message vs)
               :: string_base (key ks) x
      | None => string_base (key ks) x
      end
  end.

Definition declared (schema : object_schema) (k : string) : bool :=
  existsb (fun ks => String.eqb k (key ks)) schema.

(** The copy's own members: the body's, but for [__proto__]. *)
Definition own (members : list (string * Js.json))
  : list (string * Js.json) :=
  List.filter (fun kv => negb (String.eqb (fst kv) "__proto__")) members.

(** The members of the copy's prototype, when the body's [__proto__]
    made an object of it.  (An array as prototype, or
    [Object.prototype] behind either, has none of the keys the two
    schemas name.) *)
Definition inherited (members : list (string * Js.json))
  : list (string * Js.json) :=
  match Js.member "__proto__" members with
  | Some (Js.JObject ms) => ms
  | _ => []
  end.

(** [copy[k]] for a key [k] of a schema. *)
Definition lookup (k : string) (members : list (string * Js.json))
  : option Js.json :=
  match Js.member k (own members) with
  | Some v => Some v
  | None => Js.member k (inherited members)
  end.

(** The keys of the copy that the schema does not name. *)
Definition unknown_keys (schema : object_schema)
    (members : list (string * Js.json)) : list detail :=
  flat_map (fun kv => if declared schema (fst kv) then []
                      else [report (fst kv) "object.unknown"
                              " is not allowed"])
           (own members).

(** Every violation of the body, in joi's order. *)
Definition violations (schema : object_schema) (v : Js.json)
  : list detail :=
  match v with
  | Js.JObject members =>
      flat_map (fun ks => validate_key ks (lookup (key ks) members))
               schema
      ++ unknown_keys schema members
  | _ => [{| message := label "value" +:+ " must be of type object";
             path := []; type := "object.base" |}]
  end.

(** [schema.validate(v, opts)]: with [abortEarly] validation stops at
    the first violation, without it every violation is reported; no
    violation, no [error]. *)
Definition validate (schema : object_schema) (v : Js.json)
    (opts : options) : result :=
  let all := violations schema v in
  let reported := if abortEarly opts then take 1 all else all in
  {| value := v;
     error := match reported with
              | [] => None
              | _ :: _ => Some {| details := reported |}
              end |}.

End Joi.

Definition schemaName : Joi.object_schema :=
  [ {| Joi.key := "name"; Joi.only := None |} ].

Definition schemaMessage : Joi.object_schema :=
  [ {| Joi.key := "to"; Joi.only := None |};
    {| Joi.key := "text"; Joi.only := None |};
    {| Joi.key := "type";
       Joi.only := Some ["message"; "private_message"] |} ].

(** ** Time: [Date.now()] and [dayjs().format('HH:mm:ss')] *)

(** The instant a handler runs at, and the local time zone's offset
    from UTC then, in minutes. *)
Record clock := { epoch_ms : Z; utc_offset : Z }.

Definition Date_now (c : clock) : Z := epoch_ms c.

Definition two_digits (n : Z) : string :=
  String (ascii_of_N (Z.to_N (48 + n / 10)))
    (String (ascii_of_N (Z.to_N (48 + n mod 10))) EmptyString).

(** [now()]: the local time of day as [HH:mm:ss]. *)
Definition now (c : clock) : string :=
  let s := (epoch_ms c + utc_offset c * 60000) / 1000 in
  two_digits (s / 3600 mod 24) +:+ ":" +:+ two_digits (s / 60 mod 60)
  +:+ ":" +:+ two_digits (s mod 60).


(** ** The store: the two MongoDB collections

    A handler hands the driver [body.name], [body.to], [body.text],
    [body.type] and the [user] header as they are; each is a string or
    [undefined], and the driver writes [undefined] as null.  So these
    fields hold a string or null ([None]). *)

Record participant := { name : option string; lastStatus : Z }.

Record message :=
  { from : option string; to : option string; text : option string;
    type : option string; time : string }.

Module Mongo.

(** A query value against a field of a document: a string matches the
    field that holds it, and [undefined], sent as null, matches the
    field that holds null. *)
Definition eq_field (v : option string) (field : option string) : bool :=
  match v, field with
  | Some s, Some f => String.eqb s f
  | None, None => true
  | _, _ => false
  end.

(** The filters used on [participants]: [{}], [{ name: v }],
    [{ lastStatus: { $lte: t } }] and [{ name: { $in: vs } }]. *)
Inductive pquery :=
| PAll
| PName (v : option string)
| PLastStatusLte (t : Z)
| PNameIn (vs : list (option string)).

Definition pmatch (q : pquery) (p : participant) : bool :=
  match q with
  | PAll => true
  | PName v => eq_field v (name p)
  | PLastStatusLte t => lastStatus p <=? t
  | PNameIn vs => existsb (fun v => eq_field v (name p)) vs
  end.

(** The filters used on [messages]: [{ to: v }], [{ from: v }] and
    [{ $or: [...] }]. *)
#[local] Unset Elimination Schemes.
Inductive mquery :=
| MTo (v : option string)
| MFrom (v : option string)
| MOr (qs : list mquery).
#[local] Set Elimination Schemes.

Fixpoint mmatch (q : mquery) (m : message) : bool :=
  match q with
  | MTo v => eq_field v (to m)
  | MFrom v => eq_field v (from m)
  | MOr qs => existsb (fun q' => mmatch q' m) qs
  end.

(** The operations on a collection, a list of documents in insertion
    order. *)
Definition find {A} (matches : A -> bool) (docs : list A) : list A :=
  List.filter matches docs.

Definition findOne {A} (matches : A -> bool) (docs : list A) : option A :=
  List.find matches docs.

Definition insertOne {A} (doc : A) (docs : list A) : list A :=
  docs ++ [doc].

Definition insertMany {A} (new : list A) (docs : list A) : list A :=
  docs ++ new.

(** [updateOne] changes the first matching document only. *)
Fixpoint updateOne {A} (matches : A -> bool) (set : A -> A)
    (docs : list A) : list A :=
  match docs with
  | [] => []
  | d :: r => if matches d then set d :: r
              else d :: updateOne matches set r
  end.

Definition deleteMany {A} (matches : A -> bool) (docs : list A) : list A :=
  List.filter (fun d => negb (matches d)) docs.

(** A call to the driver, as the handlers make them. *)
Inductive call :=
| ParticipantsFindOne (q : pquery)
| ParticipantsFind (q : pquery)
| ParticipantsInsertOne (p : participant)
| ParticipantsUpdateOne (q : pquery) (lastStatus : Z)
| ParticipantsDeleteMany (q : pquery)
| MessagesFind (q : mquery)
| MessagesInsertOne (m : message)
| MessagesInsertMany (ms : list message).

(** What a handler may see thrown: the error of a driver call, or a
    TypeError of the runtime. *)
Inductive error :=
| StoreError (c : call)
| TypeError.

End Mongo.

(** ** Handlers as computations over the store

    The world a handler runs in: the two collections; [faults], which
    says of each coming driver call whether it throws (none left: it
    succeeds); [trace], the driver calls made so far and whether each
    succeeded; and what [console.log] printed.  A call that throws
    leaves the collections as they were. *)

Record store :=
  { participants : list participant; messages : list message }.

Record world :=
  { db : store;
    faults : list bool;
    trace : list (Mongo.call * bool);
    console : list Mongo.error }.

Inductive outcome (A : Type) :=
| Return (a : A)
| Throw (e : Mongo.error).
Arguments Return {A} a.
Arguments Throw {A} e.

Definition Db (A : Type) : Type := world -> outcome A * world.

#[export] Instance Db_ret : MRet Db := fun A a w => (Return a, w).

#[export] Instance Db_bind : MBind Db := fun A B f m w =>
  match m w with
  | (Return a, w') => f a w'
  | (Throw e, w') => (Throw e, w')
  end.

(** [try { body } catch (err) { handler }]. *)
Definition try_catch {A} (body : Db A) (handler : Mongo.error -> Db A)
  : Db A := fun w =>
  match body w with
  | (Return a, w') => (Return a, w')
  | (Throw e, w') => handler e w'
  end.

Definition console_log (e : Mongo.error) : Db unit := fun w =>
  (Return tt,
   {| db := db w; faults := faults w; trace := trace w;
      console := console w ++ [e] |}).

(** One awaited driver call: it consumes the next entry of [faults],
    throws if that entry says so, and otherwise runs on the store. *)
Definition driver {A} (c : Mongo.call) (run : store -> A * store) : Db A :=
  fun w =>
  match faults w with
  | true :: later =>
      (Throw (Mongo.StoreError c),
       {| db := db w; faults := later;
          trace := trace w ++ [(c, false)]; console := console w |})
  | _ =>
      let (a, s) := run (db w) in
      (Return a,
       {| db := s; faults := tail (faults w);
          trace := trace w ++ [(c, true)]; console := console w |})
  end.

Definition on_participants (f : list participant -> list participant)
    (s : store) : store :=
  {| participants := f (participants s); messages := messages s |}.

Definition on_messages (f : list message -> list message) (s : store)
  : store :=
  {| participants := participants s; messages := f (messages s) |}.

Module Participants.
Import Mongo.

Definition findOne (q : pquery) : Db (option participant) :=
  driver (ParticipantsFindOne q)
    (fun s => (Mongo.findOne (pmatch q) (participants s), s)).

Definition find (q : pquery) : Db (list participant) :=
  driver (ParticipantsFind q)
    (fun s => (Mongo.find (pmatch q) (participants s), s)).

Definition insertOne (p : participant) : Db unit :=
  driver (ParticipantsInsertOne p)
    (fun s => (tt, on_participants (Mongo.insertOne p) s)).

(** [updateOne(q, { $set: { lastStatus: t } })]. *)
Definition updateOne (q : pquery) (t : Z) : Db unit :=
  driver (ParticipantsUpdateOne q t)
    (fun s => (tt, on_participants
                     (Mongo.updateOne (pmatch q)
                        (fun p => {| name := name p; lastStatus := t |}))
                     s)).

Definition deleteMany (q : pquery) : Db unit :=
  driver (ParticipantsDeleteMany q)
    (fun s => (tt, on_participants (Mongo.deleteMany (pmatch q)) s)).

End Participants.

Module Messages.
Import Mongo.

Definition find (q : mquery) : Db (list message) :=
  driver (MessagesFind q)
    (fun s => (Mongo.find (mmatch q) (messages s), s)).

Definition insertOne (m : message) : Db unit :=
  driver (MessagesInsertOne m)
    (fun s => (tt, on_messages (Mongo.insertOne m) s)).

Definition insertMany (ms : list message) : Db unit :=
  driver (MessagesInsertMany ms)
    (fun s => (tt, on_messages (Mongo.insertMany ms) s)).

End Messages.

(** ** Responses *)

Inductive payload :=
| Text (s : string)
| Errors (messages : list string)
| ParticipantList (docs : list participant)
| MessageList (docs : list message)
| Failure (e : Mongo.error).

Record response := { status : Z; body : payload }.

(** [res.status(code).send(body)]. *)
Definition send (code : Z) (b : payload) : response :=
  {| status := code; body := b |}.

(** [res.sendStatus(code)]: the body is the status text.  Only these
    four codes are sent this way. *)
Definition sendStatus (code : Z) : response :=
  send code (Text (if code =? 200 then "OK"
                   else if code =? 201 then "Created"
                   else if code =? 404 then "Not Found"
                   else if code =? 500 then "Internal Server Error"
                   else "")).

(** ** The request handlers *)

(** [POST /participants]. *)
Definition post_participants (c : clock) (body : Js.json) : Db response :=
  let validation :=
    Joi.validate schemaName body {| Joi.abortEarly := false |} in
  match Joi.error validation with
  | Some err =>
      let errors := map Joi.message (Joi.details err) in
      mret (send 422 (Errors errors))
  | None =>
      try_catch
        (existingUser ←
           Participants.findOne (Mongo.PName (Js.field body "name"));
         match existingUser with
         | Some _ => mret (send 409 (Text "Nome de usuário indisponível"))
         | None =>
             let user := {| name := Js.field body "name";
                            lastStatus := Date_now c |} in
             let message := {| from := Js.field body "name";
                               to := Some "Todos";
                               text := Some "entra na sala...";
                               type := Some "status";
                               time := now c |} in
             _ ← Participants.insertOne user;
             _ ← Messages.insertOne message;
             mret (sendStatus 201)
         end)
        (fun err => mret (send 500 (Failure err)))
  end.

(** [GET /participants]. *)
Definition get_participants : Db response :=
  try_catch
    (participants ← Participants.find Mongo.PAll;
     mret (send 200 (ParticipantList participants)))
    (fun err => _ ← console_log err; mret (sendStatus 500)).

(** [POST /messages]; [user] is the [user] header, if any. *)
Definition post_messages (c : clock) (user : option string)
    (body : Js.json) : Db response :=
  let validation :=
    Joi.validate schemaMessage body {| Joi.abortEarly := false |} in
  match Joi.error validation with
  | Some err =>
      let errors := map Joi.message (Joi.details err) in
      mret (send 422 (Errors errors))
  | None =>
      try_catch
        (existingUser ← Participants.findOne (Mongo.PName user);
         match existingUser with
         | None => mret (send 422 (Text "Remetente não encontrado"))
         | Some _ =>
             let message := {| from := user;
                               to := Js.field body "to";
                               text := Js.field body "text";
                               type := Js.field body "type";
                               time := now c |} in
             _ ← Messages.insertOne message;
             mret (sendStatus 201)
         end)
        (fun err => mret (send 500 (Failure err)))
  end.

(** The expression [+v] in a handler: its Number, or a TypeError
    thrown. *)
Definition unary_plus (v : Js.qvalue) : Db Js.number := fun w =>
  match Js.plus v with
  | Some x => (Return x, w)
  | None => (Throw Mongo.TypeError, w)
  end.

(** [GET /messages]; [limit] is [req.query.limit], if any.  The test
    of [limit] stands before the [try]: what [+limit] throws there
    leaves the handler as a rejection nobody handles, and no response
    is sent. *)
Definition get_messages (user : option string) (limit : option Js.qvalue)
  : Db response :=
  invalid ← match limit with
            | Some l =>
                x ← unary_plus l;
                if negb (Js.isInteger x) then mret true
                else y ← unary_plus l; mret (Js.ltZ y 1)
            | None => mret false
            end;
  if invalid : bool
  then
    mret (send 422 (Text
      "O parâmetro 'limit' deve ser um número inteiro maior ou igual a 1."))
  else
    try_catch
      (let query := Mongo.MOr [Mongo.MTo user; Mongo.MTo (Some "Todos");
                               Mongo.MFrom user] in
       messages ← Messages.find query;
       match limit with
       | None => mret (send 200 (MessageList messages))
       | Some l =>
           limitInt ← unary_plus l;
           mret (send 200 (MessageList
                             (Js.slice messages (Js.negate limitInt))))
       end)
      (fun err => _ ← console_log err; mret (sendStatus 500)).

(** [POST /status]. *)
Definition post_status (c : clock) (user : option string) : Db response :=
  try_catch
    (userOn ← Participants.findOne (Mongo.PName user);
     match userOn with
     | None => mret (sendStatus 404)
     | Some _ =>
         _ ← Participants.updateOne (Mongo.PName user) (Date_now c);
         mret (sendStatus 200)
     end)
    (fun err => mret (send 500 (Failure err))).

(** ** The reaper *)

Definition removeInactiveUsers (c : clock) : Db unit :=
  let threshold := Date_now c - 10000 in
  try_catch
    (inactiveUsers ← Participants.find (Mongo.PLastStatusLte threshold);
     let messagesToInsert :=
       map (fun user => {| from := name user;
                           to := Some "Todos";
                           text := Some "sai da sala...";
                           type := Some "status";
                           time := now c |})
           inactiveUsers in
     let userNamesToDelete := map name inactiveUsers in
     _ ← (if (0 <? length messagesToInsert)%nat
          then Messages.insertMany messagesToInsert
          else mret tt);
     if (0 <? length userNamesToDelete)%nat
     then Participants.deleteMany (Mongo.PNameIn userNamesToDelete)
     else mret tt)
    (fun err => console_log err).

(** ** Between two awaited calls

    A handler is suspended at each [await], and the driver calls of
    other requests and of the sweep may reach the store before it
    resumes.  [meanwhile others] is what they do to the store between
    two calls of the handler at hand; the handlers above are the
    handlers nothing comes between. *)

Definition meanwhile (others : store -> store) : Db unit := fun w =>
  (Return tt,
   {| db := others (db w); faults := faults w; trace := trace w;
      console := console w |}).

(** The sweep, with what other handlers write between its [find] and
    its [insertMany], and between that and its [deleteMany]. *)
Definition removeInactiveUsers_interleaved (c : clock)
    (others1 others2 : store -> store) : Db unit :=
  let threshold := Date_now c - 10000 in
  try_catch
    (inactiveUsers ← Participants.find (Mongo.PLastStatusLte threshold);
     let messagesToInsert :=
       map (fun user => {| from := name user;
                           to := Some "Todos";
                           text := Some "sai da sala...";
                           type := Some "status";
                           time := now c |})
           inactiveUsers in
     let userNamesToDelete := map name inactiveUsers in
     _ ← (if (0 <? length messagesToInsert)%nat
          then _ ← meanwhile others1;
               Messages.insertMany messagesToInsert
          else mret tt);
     if (0 <? length userNamesToDelete)%nat
     then _ ← meanwhile others2;
          Participants.deleteMany (Mongo.PNameIn userNamesToDelete)
     else mret tt)
    (fun err => console_log err).

(** [POST /participants], with what other handlers write between its
    [findOne] and its first [insertOne], and between its two
    [insertOne]. *)
Definition post_participants_interleaved (c : clock) (body : Js.json)
    (others1 others2 : store -> store) : Db response :=
  let validation :=
    Joi.validate schemaName body {| Joi.abortEarly := false |} in
  match Joi.error validation with
  | Some err =>
      let errors := map Joi.message (Joi.details err) in
      mret (send 422 (Errors errors))
  | None =>
      try_catch
        (existingUser ←
           Participants.findOne (Mongo.PName (Js.field body "name"));
         match existingUser with
         | Some _ => mret (send 409 (Text "Nome de usuário indisponível"))
         | None =>
             let user := {| name := Js.field body "name";
                            lastStatus := Date_now c |} in
             let message := {| from := Js.field body "name";
                               to := Some "Todos";
                               text := Some "entra na sala...";
                               type := Some "status";
                               time := now c |} in
             _ ← meanwhile others1;
             _ ← Participants.insertOne user;
             _ ← meanwhile others2;
             _ ← Messages.insertOne message;
             mret (sendStatus 201)
         end)
        (fun err => mret (send 500 (Failure err)))
  end.

(** ** The server: requests and timer ticks, one at a time

    [run] is an execution in which each handler and each sweep runs to
    its end before the next event is taken: no driver call of another
    comes between two of its calls. *)

Inductive request :=
| PostParticipants (body : Js.json)
| GetParticipants
| PostMessages (user : option string) (body : Js.json)
| GetMessages (user : option string) (limit : option Js.qvalue)
| PostStatus (user : option string).

Definition handle (c : clock) (r : request) : Db response :=
  match r with
  | PostParticipants body => post_participants c body
  | GetParticipants => get_participants
  | PostMessages user body => post_messages c user body
  | GetMessages user limit => get_messages user limit
  | PostStatus user => post_status c user
  end.

(** What happens to the server: a request arrives, or the 15-second
    timer fires. *)
Inductive event :=
| Request (c : clock) (r : request)
| Sweep (c : clock).

Definition step (e : event) (w : world) : world :=
  match e with
  | Request c r => snd (handle c r w)
  | Sweep c => snd (removeInactiveUsers c w)
  end.

Definition run (events : list event) (w : world) : world :=
  fold_left (fun w e => step e w) events w.

(** The server as it starts: empty collections. *)
Definition start (faults : list bool) : world :=
  {| db := {| participants := []; messages := [] |};
     faults := faults; trace := []; console := [] |}.

(** ** Vocabulary of the properties *)

(** The next [n] driver calls do not throw. *)
Definition succeeds (n : nat) (w : world) : Prop :=
  forallb negb (take n (faults w)) = true.

Definition names (w : world) : list (option string) :=
  map name (participants (db w)).

(** The data model's invariant: no two participants share a name. *)
Definition unique_names (w : world) : Prop := List.NoDup (names w).

(** [user], a header value, is the name of a participant. *)
Definition known (user : option string) (w : world) : Prop :=
  exists p, In p (participants (db w)) /\ user = name p.

(** How many participants carry the name [n]. *)
Definition count_name (n : string) (w : world) : nat :=
  length (List.filter (fun p => Mongo.eq_field (Some n) (name p))
            (participants (db w))).

(** A body that meets a schema, member by member: an object whose
    members are the schema's keys and nothing else, each a string,
    non-empty or one of the values the key allows. *)
Definition conforms_key (ks : Joi.key_schema) (v : option Js.json) : Prop :=
  exists s, v = Some (Js.JString s) /\
    match Joi.only ks with
    | Some vs => In s vs
    | None => s <> ""
    end.

Definition conforms (schema : Joi.object_schema) (body : Js.json) : Prop :=
  exists members, body = Js.JObject members /\
    (forall ks, In ks schema ->
       conforms_key ks (Js.member (Joi.key ks) members)) /\
    (forall k v, In (k, v) members ->
       exists ks, In ks schema /\ Joi.key ks = k).

(** A body the validator accepts: an object in which each key of the
    schema, read from the body's own members or else through its
    member [__proto__], is a string, non-empty or one of the values the
    key allows, and whose members, but for [__proto__], are keys of the
    schema. *)
Definition accepted (schema : Joi.object_schema) (body : Js.json) : Prop :=
  exists members, body = Js.JObject members /\
    (forall ks, In ks schema ->
       conforms_key ks (Joi.lookup (Joi.key ks) members)) /\
    (forall k v, In (k, v) members -> k <> "__proto__" ->
       exists ks, In ks schema /\ Joi.key ks = k).

(** What a body gets wrong, stated key by key. *)
Inductive violates (schema : Joi.object_schema) (body : Js.json)
  : Joi.detail -> Prop :=
| not_an_object :
    (forall members, body <> Js.JObject members) ->
    violates schema body
      {| Joi.message := Joi.label "value" +:+ " must be of type object";
         Joi.path := []; Joi.type := "object.base" |}
| key_missing members ks :
    body = Js.JObject members -> In ks schema ->
    Joi.lookup (Joi.key ks) members = None ->
    violates schema body
      (Joi.report (Joi.key ks) "any.required" " is required")
| key_not_allowed members ks vs x :
    body = Js.JObject members -> In ks schema ->
    Joi.lookup (Joi.key ks) members = Some x ->
    Joi.only ks = Some vs ->
    (forall s, x = Js.JString s -> ~ In s vs) ->
    violates schema body
      (Joi.report (Joi.key ks) "any.only" (Joi.only_message vs))
| key_not_a_string members ks x :
    body = Js.JObject members -> In ks schema ->
    Joi.lookup (Joi.key ks) members = Some x ->
    (forall s, x <> Js.JString s) ->
    violates schema body
      (Joi.report (Joi.key ks) "string.base" " must be a string")
| key_empty members ks :
    body = Js.JObject members -> In ks schema ->
    Joi.lookup (Joi.key ks) members = Some (Js.JString "") ->
    ~ In "" (default [] (Joi.only ks)) ->
    violates schema body
      (Joi.report (Joi.key ks) "string.empty" " is not allowed to be empty")
| key_unknown members k v :
    body = Js.JObject members -> In (k, v) members ->
    k <> "__proto__" ->
    (forall ks, In ks schema -> Joi.key ks <> k) ->
    violates schema body
      (Joi.report k "object.unknown" " is not allowed").

(** The message a sweep records for a participant it removes. *)
Definition departure (c : clock) (p : participant) : message :=
  {| from := name p; to := Some "Todos"; text := Some "sai da sala...";
     type := Some "status"; time := now c |}.

(** A participant is inactive at [c]: its last heartbeat is 10 seconds
    old or older. *)
Definition inactive (c : clock) (p : participant) : Prop :=
  lastStatus p <= Date_now c - 10000.

#[export] Instance inactive_dec c p : Decision (inactive c p).
Proof. unfold inactive. apply _. Defined.

(** A message [user] may read. *)
Definition visible (user : option string) (m : message) : Prop :=
  to m = user \/ to m = Some "Todos" \/ from m = user.

#[export] Instance visible_dec user m : Decision (visible user m).
Proof. unfold visible. apply _. Defined.

(** The integer a Number is, if it is one. *)
Definition integer (x : Js.number) : option Z :=
  match x with
  | Js.Fin m e => if Js.isInteger x then Some (Js.truncate m e) else None
  | _ => None
  end.

Definition positive_integer (x : Js.number) : Prop :=
  exists n, integer x = Some n /\ 1 <= n.

(** A query value that is a positive integer as it is written: the
    string it converts to reads as a numeric literal whose
    mathematical value, before any rounding, is an integer 1 or
    greater. *)
Definition denotes_positive_integer (l : Js.qvalue) : Prop :=
  exists s m x n,
    Js.to_string l = Some s /\
    Js.StringNumericLiteral s = Js.Exact false m x /\
    1 <= n /\
    if 0 <=? x then n = m * 10 ^ x else m = n * 10 ^ (- x).

(** The participant as a heartbeat at [c] leaves it. *)
Definition beat (c : clock) (p : participant) : participant :=
  {| name := name p; lastStatus := Date_now c |}.

(** The three driver calls of a sweep that finds [gone] inactive. *)
Definition sweep_find (c : clock) : Mongo.call :=
  Mongo.ParticipantsFind (Mongo.PLastStatusLte (Date_now c - 10000)).

Definition sweep_insert (c : clock) (gone : list participant) : Mongo.call :=
  Mongo.MessagesInsertMany (map (departure c) gone).

Definition sweep_delete (gone : list participant) : Mongo.call :=
  Mongo.ParticipantsDeleteMany (Mongo.PNameIn (map name gone)).

(** ** A room to run the handlers in

    Two participants, both last heard of at 22:13:25 UTC; [bia] sends a
    heartbeat ten seconds later, and the sweep runs at 22:13:40. *)

Definition at_ms (ms : Z) : clock := {| epoch_ms := ms; utc_offset := -180 |}.

Definition ana : participant :=
  {| name := Some "ana"; lastStatus := 1700000005000 |}.

Definition bia : participant :=
  {| name := Some "bia"; lastStatus := 1700000005000 |}.

Definition chat (sender receiver words kind : string) : message :=
  {| from := Some sender; to := Some receiver; text := Some words;
     type := Some kind; time := "19:13:25" |}.

(** Seven messages, five of which [ana] may read. *)
Definition talk : list message :=
  [ chat "ana" "Todos" "oi" "message";
    chat "bia" "ana" "psst" "private_message";
    chat "bia" "caio" "segredo" "private_message";
    chat "ana" "caio" "tudo bem?" "private_message";
    chat "caio" "Todos" "cheguei" "message";
    chat "caio" "bia" "e ai" "private_message";
    chat "bia" "Todos" "tchau" "message" ].

Definition room (faults : list bool) : world :=
  {| db := {| participants := [ana; bia]; messages := talk |};
     faults := faults; trace := []; console := [] |}.

Definition room_after_heartbeat : world :=
  snd (post_status (at_ms 1700000015000) (Some "bia") (room [])).

Definition name_body (n : string) : Js.json :=
  Js.JObject [("name", Js.JString n)].

Definition message_body (receiver words kind : string) : Js.json :=
  Js.JObject [("to", Js.JString receiver); ("text", Js.JString words);
              ("type", Js.JString kind)].

(** The status a handler answers with (0 if it threw). *)
Definition status_of (result : outcome response * world) : Z :=
  match fst result with
  | Return r => status r
  | Throw _ => 0
  end.

(** ** Vocabulary of the further properties *)

(** The statuses the handler of each route sends. *)
Definition statuses (r : request) : list Z :=
  match r with
  | PostParticipants _ => [201; 409; 422; 500]
  | GetParticipants => [200; 500]
  | PostMessages _ _ => [201; 422; 500]
  | GetMessages _ _ => [200; 422; 500]
  | PostStatus _ => [200; 404; 500]
  end.

Definition is_get (r : request) : bool :=
  match r with
  | GetParticipants | GetMessages _ _ => true
  | _ => false
  end.

(** A request that sets the [lastStatus] of the participant [n]: its
    registration, or a heartbeat of its. *)
Definition touches (n : option string) (r : request) : Prop :=
  match r with
  | PostParticipants body => Js.field body "name" = n
  | PostStatus user => user = n
  | _ => False
  end.

(** What the handlers and the sweep store as a message: a time of
    day, and either one of the two notices of the server, addressed to
    everybody, or what a client may post: a type that is one of the
    two a client may use, or null; a receiver and a text that are not
    the empty string. *)
Definition well_formed (m : message) : Prop :=
  from m <> Some "" /\
  String.length (time m) = 8%nat /\
  ((type m = Some "status" /\ to m = Some "Todos" /\
    (text m = Some "entra na sala..." \/ text m = Some "sai da sala..."))
   \/ ((type m = Some "message" \/ type m = Some "private_message"
        \/ type m = None) /\
       to m <> Some "" /\ text m <> Some "")).

(** The same instant, a number of whole days later. *)
Definition days_later (days : Z) (c : clock) : clock :=
  {| epoch_ms := epoch_ms c + 86400000 * days; utc_offset := utc_offset c |}.

(** [setInterval(removeInactiveUsers, 15000)]: the instants of the
    sweeps of a server started at [started], were the timer exact. *)
Definition sweep_interval : Z := 15000.

Definition tick (started : Z) (k : nat) : Z :=
  started + sweep_interval * Z.of_nat (S k).

(** The message [POST /messages] stores for a body. *)
Definition posted (c : clock) (sender : option string) (body : Js.json)
  : message :=
  {| from := sender;
     to := Js.field body "to";
     text := Js.field body "text";
     type := Js.field body "type";
     time := now c |}.

(** The participant and the notice [POST /participants] stores. *)
Definition newcomer (c : clock) (n : option string) : participant :=
  {| name := n; lastStatus := Date_now c |}.

Definition arrival (c : clock) (n : option string) : message :=
  {| from := n; to := Some "Todos"; text := Some "entra na sala...";
     type := Some "status"; time := now c |}.

(** * Properties *)

(** ** Validation *)

Lemma existsb_eqb_In (s : string) (vs : list string) :
  existsb (String.eqb s) vs = true <-> In s vs.
Proof.
  rewrite existsb_exists. split.
  - intros (x & Hx & He). apply String.eqb_eq in He. now subst.
  - intros H. exists s. split; [assumption | apply String.eqb_refl].
Qed.

Lemma is_allowed_spec vs x :
  Joi.is_allowed vs x = true <-> exists s, x = Js.JString s /\ In s vs.
Proof.
  destruct x; simpl; try (split; [discriminate | intros (s' & H & _); discriminate]).
  rewrite existsb_eqb_In. split.
  - intros H. eauto.
  - intros (s' & [= <-] & H). exact H.
Qed.

Lemma string_base_nil k x :
  Joi.string_base k x = [] <-> exists s, x = Js.JString s /\ s <> "".
Proof.
  destruct x; simpl; try (split; [discriminate | intros (s' & H & _); discriminate]).
  destruct (String.eqb_spec s ""); split; try discriminate.
  - intros (s' & [= <-] & H). contradiction.
  - intros _. eauto.
  - intros (s' & [= <-] & H). reflexivity.
Qed.

Lemma validate_key_nil ks v :
  Joi.validate_key ks v = [] <-> conforms_key ks v.
Proof.
  unfold Joi.validate_key, conforms_key.
  destruct v as [x|]; [|split; [discriminate | intros (s & H & _); discriminate]].
  destruct (Joi.only ks) as [vs|].
  - destruct (Joi.is_allowed vs x) eqn:Ha.
    + apply is_allowed_spec in Ha as (s & -> & Hs). split; eauto.
    + split; [discriminate|]. intros (s & [= ->] & Hs).
      assert (Joi.is_allowed vs (Js.JString s) = true) by (apply is_allowed_spec; eauto).
      congruence.
  - rewrite string_base_nil. split; intros (s & H & Hs); exists s; split; congruence.
Qed.

Lemma flat_map_nil {A B} (f : A -> list B) l :
  flat_map f l = [] <-> forall x, In x l -> f x = [].
Proof.
  induction l as [|a l IH]; simpl.
  - split; [tauto | reflexivity].
  - split.
    + intros H. apply app_eq_nil in H as [Ha Hl]. intros x [<-|Hx]; [assumption|].
      now apply IH.
    + intros H. rewrite (H a) by now left. simpl. apply IH. intros x Hx. apply H. now right.
Qed.

Lemma declared_spec schema k :
  Joi.declared schema k = true <-> exists ks, In ks schema /\ Joi.key ks = k.
Proof.
  unfold Joi.declared. rewrite existsb_exists. split.
  - intros (ks & Hin & He). apply String.eqb_eq in He. eauto.
  - intros (ks & Hin & <-). exists ks. split; [assumption | apply String.eqb_refl].
Qed.

Lemma own_spec members k v :
  In (k, v) (Joi.own members) <-> In (k, v) members /\ k <> "__proto__".
Proof.
  unfold Joi.own. rewrite filter_In. simpl.
  destruct (String.eqb_spec k "__proto__"); simpl; intuition congruence.
Qed.

Lemma own_all members :
  (forall k v, In (k, v) members -> k <> "__proto__") ->
  Joi.own members = members.
Proof.
  intros H. unfold Joi.own. induction members as [|[k v] ms IH]; [reflexivity|].
  simpl. destruct (String.eqb_spec k "__proto__") as [He|Hne]; simpl.
  - destruct (H k v (or_introl eq_refl) He).
  - f_equal. apply IH. intros k' v' Hin. apply (H k' v'). now right.
Qed.

Lemma violations_nil schema body :
  Joi.violations schema body = [] <-> accepted schema body.
Proof.
  unfold accepted. destruct body; simpl;
    try (split; [discriminate | intros (ms & H & _); discriminate]).
  split.
  - intros H. apply app_eq_nil in H as [Hk Hu]. exists members. split; [reflexivity|]. split.
    + intros ks Hks. apply validate_key_nil. rewrite flat_map_nil in Hk. now apply Hk.
    + intros k v Hkv Hp. unfold Joi.unknown_keys in Hu. rewrite flat_map_nil in Hu.
      assert (Ho : In (k, v) (Joi.own members)) by now apply own_spec.
      specialize (Hu _ Ho). simpl in Hu.
      destruct (Joi.declared schema k) eqn:Hd; [|discriminate].
      now apply declared_spec.
  - intros (ms & [= <-] & Hk & Hu).
    assert (H1 : flat_map (fun ks => Joi.validate_key ks
                                       (Joi.lookup (Joi.key ks) members))
                   schema = []).
    { apply flat_map_nil. intros ks Hks. apply validate_key_nil. now apply Hk. }
    assert (H2 : Joi.unknown_keys schema members = []).
    { apply flat_map_nil. intros [k v] Hkv. simpl.
      apply own_spec in Hkv as [Hkv Hp].
      destruct (Hu _ _ Hkv Hp) as (ks & Hks & Hkey).
      assert (Hd : Joi.declared schema k = true) by (apply declared_spec; eauto).
      now rewrite Hd. }
    now rewrite H1, H2.
Qed.

Lemma validate_all_error schema body :
  Joi.error (Joi.validate schema body {| Joi.abortEarly := false |}) =
  match Joi.violations schema body with
  | [] => None
  | ds => Some {| Joi.details := ds |}
  end.
Proof. unfold Joi.validate. simpl. now destruct (Joi.violations schema body). Qed.

(** A body that meets a schema member by member is accepted. *)
Lemma conforms_accepted schema body :
  Joi.declared schema "__proto__" = false ->
  conforms schema body -> accepted schema body.
Proof.
  intros Hd (members & -> & Hk & Hu). exists members.
  assert (Hown : Joi.own members = members).
  { apply own_all. intros k v Hkv ->. destruct (Hu _ _ Hkv) as (ks & Hks & Hkey).
    assert (Joi.declared schema "__proto__" = true) by (apply declared_spec; eauto).
    congruence. }
  split; [reflexivity|]. split.
  - intros ks Hks. destruct (Hk ks Hks) as (x & Hx & Hok).
    exists x. split; [|exact Hok]. unfold Joi.lookup. now rewrite Hown, Hx.
  - intros k v Hkv _. eauto.
Qed.

Lemma validate_conforms schema body :
  Joi.declared schema "__proto__" = false ->
  conforms schema body ->
  Joi.error (Joi.validate schema body {| Joi.abortEarly := false |}) = None.
Proof.
  intros Hd H. apply (conforms_accepted _ _ Hd), violations_nil in H.
  now rewrite validate_all_error, H.
Qed.

Lemma validation_passes_iff schema body :
  Joi.error (Joi.validate schema body {| Joi.abortEarly := false |}) = None
  <-> accepted schema body.
Proof.
  rewrite validate_all_error, <- violations_nil.
  destruct (Joi.violations schema body); split; congruence.
Qed.

Lemma validate_violates schema body :
  ~ accepted schema body ->
  Joi.violations schema body <> [] /\
  Joi.error (Joi.validate schema body {| Joi.abortEarly := false |}) =
  Some {| Joi.details := Joi.violations schema body |}.
Proof.
  intros H. rewrite <- violations_nil in H. split; [assumption|].
  rewrite validate_all_error. now destruct (Joi.violations schema body).
Qed.

Lemma string_base_In k x d :
  In d (Joi.string_base k x) <->
  ((forall s, x <> Js.JString s) /\ d = Joi.report k "string.base" " must be a string") \/
  (x = Js.JString "" /\ d = Joi.report k "string.empty" " is not allowed to be empty").
Proof.
  destruct x; simpl;
    try (split; [intros [<-|[]]; left; split; [intros ?; discriminate | reflexivity]
                | intros [[_ ->]|[? _]]; [now left | discriminate]]).
  destruct (String.eqb_spec s ""); simpl.
  - subst. split.
    + intros [<-|[]]. now right.
    + intros [[H _]|[_ ->]]; [now destruct (H "") | now left].
  - split; [intros [] |]. intros [[H _]|[[= H] _]]; [now destruct (H s) | contradiction].
Qed.

Lemma validate_key_In ks v d :
  In d (Joi.validate_key ks v) <->
  (v = None /\ d = Joi.report (Joi.key ks) "any.required" " is required") \/
  (exists x vs, v = Some x /\ Joi.only ks = Some vs /\
     (forall s, x = Js.JString s -> ~ In s vs) /\
     d = Joi.report (Joi.key ks) "any.only" (Joi.only_message vs)) \/
  (exists x, v = Some x /\ (forall s, x <> Js.JString s) /\
     d = Joi.report (Joi.key ks) "string.base" " must be a string") \/
  (v = Some (Js.JString "") /\ ~ In "" (default [] (Joi.only ks)) /\
     d = Joi.report (Joi.key ks) "string.empty" " is not allowed to be empty").
Proof.
  unfold Joi.validate_key. destruct v as [x|]; simpl.
  2:{ split.
      - intros [<-|[]]. now left.
      - intros [[_ ->]|[(x & vs & H & _)|[(x & H & _)|(H & _)]]]; try discriminate. now left. }
  destruct (Joi.only ks) as [vs|] eqn:Ho; simpl.
  - destruct (Joi.is_allowed vs x) eqn:Ha.
    + apply is_allowed_spec in Ha as (s & -> & Hs). split; [intros []|].
      intros [[H _]|[(x & vs' & [= <-] & [= <-] & H & _)|[(x & [= <-] & H & _)|([= ->] & H & _)]]].
      * discriminate.
      * now destruct (H s).
      * now destruct (H s).
      * contradiction.
    + assert (Hna : forall s, x = Js.JString s -> ~ In s vs).
      { intros s -> Hs.
        assert (Joi.is_allowed vs (Js.JString s) = true)
          by (apply is_allowed_spec; eauto).
        congruence. }
      simpl. rewrite string_base_In. split.
      * intros [<-|[[H ->]|[-> ->]]].
        -- right. left. eauto 6.
        -- right. right. left. eauto.
        -- right. right. right. split; [reflexivity|]. split; [|reflexivity]. now apply Hna.
      * intros [[H _]|[(x' & vs' & [= <-] & [= <-] & H & ->)
                      |[(x' & [= <-] & H & ->)|([= ->] & H & ->)]]].
        -- discriminate.
        -- now left.
        -- right. now left.
        -- right. now right.
  - rewrite string_base_In. split.
    + intros [[H ->]|[-> ->]].
      * right. right. left. eauto.
      * right. right. right. split; [reflexivity|]. split; [|reflexivity]. intros [].
    + intros [[H _]|[(x' & vs' & _ & [=] & _)|[(x' & [= <-] & H & ->)|([= ->] & H & ->)]]].
      * discriminate.
      * now left.
      * now right.
Qed.

Lemma violations_complete schema body d :
  In d (Joi.violations schema body) <-> violates schema body d.
Proof.
  split.
  - destruct body; simpl;
      try (intros [<-|[]]; apply not_an_object; intros ?; discriminate).
    rewrite in_app_iff, in_flat_map. intros [(ks & Hks & Hd)|Hd].
    + apply validate_key_In in Hd
        as [[Hm ->]|[(x & vs & Hm & Ho & Hn & ->)|[(x & Hm & Hn & ->)|(Hm & Hn & ->)]]].
      * eapply key_missing; eauto.
      * eapply key_not_allowed; eauto.
      * eapply key_not_a_string; eauto.
      * eapply key_empty; eauto.
    + unfold Joi.unknown_keys in Hd. apply in_flat_map in Hd as ([k v] & Hkv & Hd). simpl in Hd.
      apply own_spec in Hkv as [Hkv Hp].
      destruct (Joi.declared schema k) eqn:Hdecl; [destruct Hd|].
      destruct Hd as [<-|[]]. eapply key_unknown; eauto.
      intros ks Hks Hkey. assert (Joi.declared schema k = true) by (apply declared_spec; eauto).
      congruence.
  - intros H.
    destruct H as [Hno|ms ks -> Hks Hm|ms ks vs x -> Hks Hm Ho Hn
                  |ms ks x -> Hks Hm Hn|ms ks -> Hks Hm Hn|ms k v -> Hkv Hp Hn].
    + destruct body; simpl; try now left. now destruct (Hno members).
    + simpl. apply in_app_iff. left. apply in_flat_map. exists ks. split; [assumption|].
      apply validate_key_In. now left.
    + simpl. apply in_app_iff. left. apply in_flat_map. exists ks. split; [assumption|].
      apply validate_key_In. right. left. eauto 7.
    + simpl. apply in_app_iff. left. apply in_flat_map. exists ks. split; [assumption|].
      apply validate_key_In. right. right. left. eauto.
    + simpl. apply in_app_iff. left. apply in_flat_map. exists ks. split; [assumption|].
      apply validate_key_In. right. right. right. eauto.
    + simpl. apply in_app_iff. right. unfold Joi.unknown_keys. apply in_flat_map.
      exists (k, v). split; [now apply own_spec|]. simpl.
      destruct (Joi.declared schema k) eqn:Hd; [|now left].
      apply declared_spec in Hd as (ks & Hks & Hkey). now destruct (Hn ks Hks).
Qed.

(** ** Registration and posting *)

Lemma eq_field_spec v f : Mongo.eq_field v f = true <-> v = f.
Proof.
  destruct v as [s|], f as [t|]; simpl; try (split; congruence).
  rewrite String.eqb_eq. split; congruence.
Qed.

Lemma findOne_known user ps :
  (exists p, In p ps /\ user = name p) ->
  exists p, Mongo.findOne (Mongo.pmatch (Mongo.PName user)) ps = Some p /\
            In p ps /\ user = name p.
Proof.
  intros (p & Hp & Hu). unfold Mongo.findOne.
  destruct (List.find (Mongo.pmatch (Mongo.PName user)) ps) as [q|] eqn:Hf.
  - apply find_some in Hf as [Hq Hm]. simpl in Hm. apply eq_field_spec in Hm. eauto.
  - apply (find_none _ _ Hf) in Hp. simpl in Hp.
    assert (Mongo.eq_field user (name p) = true) by now apply eq_field_spec.
    congruence.
Qed.

Lemma findOne_unknown user ps :
  ~ (exists p, In p ps /\ user = name p) ->
  Mongo.findOne (Mongo.pmatch (Mongo.PName user)) ps = None.
Proof.
  intros Hn. unfold Mongo.findOne.
  destruct (List.find (Mongo.pmatch (Mongo.PName user)) ps) as [q|] eqn:Hf; [|reflexivity].
  apply find_some in Hf as [Hq Hm]. simpl in Hm. apply eq_field_spec in Hm.
  destruct Hn. eauto.
Qed.

(** Splits the world on the fault entries the hypotheses speak of. *)
Ltac faults_cases w :=
  destruct w as [[ps ms] fs tr co]; unfold succeeds, known in *; simpl in *;
  repeat match goal with
         | H : forallb negb (take _ ?l) = true |- _ =>
             destruct l as [|[] l]; simpl in H; try discriminate H
         end.

(** Runs the driver calls of a handler whose fault entries are known. *)
Ltac run_db :=
  unfold try_catch, mbind, mret, Db_bind, Db_ret, Participants.findOne,
    Participants.find, Participants.insertOne, Participants.updateOne,
    Participants.deleteMany, Messages.find, Messages.insertOne,
    Messages.insertMany, console_log, meanwhile, driver;
  cbn [faults db trace console
    participants messages tail fst snd on_participants on_messages].

Lemma count_name_unique n ps :
  List.NoDup (map name ps) -> (exists p, In p ps /\ name p = n) ->
  length (List.filter (fun p => Mongo.eq_field n (name p)) ps) = 1%nat.
Proof.
  induction ps as [|q ps IH]; simpl; intros Hnd (p & Hp & Hn); [destruct Hp|].
  inversion Hnd as [|? ? Hq Hnd']; subst.
  destruct (Mongo.eq_field (name p) (name q)) eqn:He.
  - apply eq_field_spec in He. simpl. f_equal. apply length_zero_iff_nil.
    destruct (List.filter _ ps) as [|r l] eqn:Hf; [reflexivity|].
    assert (Hr : In r (List.filter (fun p0 => Mongo.eq_field (name p) (name p0)) ps))
      by (rewrite Hf; now left).
    apply filter_In in Hr as [Hr Hrn]. apply eq_field_spec in Hrn.
    destruct Hq. rewrite <- He, Hrn. now apply in_map.
  - apply IH; [assumption|]. destruct Hp as [->|Hp]; [|eauto].
    assert (Mongo.eq_field (name p) (name p) = true) by now apply eq_field_spec.
    congruence.
Qed.

Lemma conforms_prop_string schema body ks :
  conforms schema body -> In ks schema ->
  Js.prop body (Joi.key ks) = Some (Js.JString (Js.prop_string body (Joi.key ks))).
Proof.
  intros (ms & -> & Hk & _) Hks. destruct (Hk ks Hks) as (s & Hs & _).
  unfold Js.prop_string. simpl. now rewrite Hs.
Qed.

(** What the handler hands the driver for a key of a body that meets
    the schema: the string the member is. *)
Lemma conforms_field schema body ks :
  conforms schema body -> In ks schema ->
  Js.field body (Joi.key ks) = Some (Js.prop_string body (Joi.key ks)).
Proof.
  intros Hc Hks. unfold Js.field. now rewrite (conforms_prop_string _ _ _ Hc Hks).
Qed.

Lemma conforms_name_field body :
  conforms schemaName body ->
  Js.field body "name" = Some (Js.prop_string body "name").
Proof.
  intros Hc.
  apply (conforms_field schemaName body {| Joi.key := "name"; Joi.only := None |} Hc).
  now left.
Qed.

Lemma conforms_message_field body :
  conforms schemaMessage body ->
  Js.field body "to" = Some (Js.prop_string body "to") /\
  Js.field body "text" = Some (Js.prop_string body "text") /\
  Js.field body "type" = Some (Js.prop_string body "type").
Proof.
  intros Hc. repeat split.
  - apply (conforms_field schemaMessage body {| Joi.key := "to"; Joi.only := None |} Hc).
    now left.
  - apply (conforms_field schemaMessage body {| Joi.key := "text"; Joi.only := None |} Hc).
    right. now left.
  - apply (conforms_field schemaMessage body
             {| Joi.key := "type"; Joi.only := Some ["message"; "private_message"] |} Hc).
    right. right. now left.
Qed.

(** C3: a registration whose name a participant already holds is
    answered 409; the store is left as it was (no participant and no
    message inserted), and it still holds exactly one participant of
    that name. *)
Theorem register_taken_name (c : clock) (body : Js.json) (w : world) :
  conforms schemaName body ->
  known (Some (Js.prop_string body "name")) w ->
  unique_names w ->
  succeeds 1 w ->
  exists r w',
    post_participants c body w = (Return r, w') /\
    status r = 409 /\
    db w' = db w /\
    count_name (Js.prop_string body "name") w' = 1%nat.
Proof.
  intros Hc Hk Hu Hs. unfold post_participants.
  rewrite (validate_conforms schemaName _ eq_refl Hc), (conforms_name_field _ Hc).
  assert (Hcount : count_name (Js.prop_string body "name") w = 1%nat).
  { apply count_name_unique; [exact Hu|]. destruct Hk as (p & Hp & Hn). eauto. }
  unfold count_name in *.
  faults_cases w; run_db;
    destruct (findOne_known _ _ Hk) as (p & -> & _); eauto 10.
Qed.

(** C4: a valid registration under a name nobody holds inserts the
    participant [{name, lastStatus = now}], records the broadcast status
    message of [name], "entra na sala...", stamped with the current
    formatted time, and is answered 201. *)
Theorem register_fresh_name (c : clock) (body : Js.json) (w : world) :
  conforms schemaName body ->
  ~ known (Some (Js.prop_string body "name")) w ->
  succeeds 3 w ->
  let n := Js.prop_string body "name" in
  let joined := {| from := Some n; to := Some "Todos";
                   text := Some "entra na sala...";
                   type := Some "status"; time := now c |} in
  exists r w',
    post_participants c body w = (Return r, w') /\
    status r = 201 /\
    participants (db w') =
      participants (db w)
      ++ [ {| name := Some n; lastStatus := Date_now c |} ] /\
    messages (db w') = messages (db w) ++ [joined] /\
    exists sender words,
      from joined = Some sender /\ text joined = Some words /\
      sender +:+ " " +:+ words = n +:+ " entra na sala...".
Proof.
  intros Hc Hk Hs n joined. unfold post_participants.
  rewrite (validate_conforms schemaName _ eq_refl Hc), (conforms_name_field _ Hc).
  faults_cases w; run_db; rewrite (findOne_unknown _ _ Hk);
    do 2 eexists; repeat split; try reflexivity; do 2 eexists;
    repeat split; reflexivity.
Qed.

(** C9: a valid message whose [user] header names no participant is
    answered 422, and nothing is inserted. *)
Theorem unknown_sender_rejected (c : clock) (user : option string)
    (body : Js.json) (w : world) :
  conforms schemaMessage body ->
  ~ known user w ->
  succeeds 1 w ->
  exists w',
    post_messages c user body w =
      (Return (send 422 (Text "Remetente não encontrado")), w') /\
    db w' = db w.
Proof.
  intros Hc Hk Hs. unfold post_messages.
  rewrite (validate_conforms schemaMessage _ eq_refl Hc).
  faults_cases w; run_db; rewrite (findOne_unknown _ _ Hk); eauto.
Qed.

(** A valid message from a registered sender is appended as posted,
    under the sender's name and the current formatted time, and
    answered 201. *)
Theorem message_recorded (c : clock) (sender : string) (body : Js.json)
    (w : world) :
  conforms schemaMessage body ->
  known (Some sender) w ->
  succeeds 2 w ->
  exists w',
    post_messages c (Some sender) body w = (Return (sendStatus 201), w') /\
    participants (db w') = participants (db w) /\
    messages (db w') =
      messages (db w) ++
      [ {| from := Some sender;
           to := Some (Js.prop_string body "to");
           text := Some (Js.prop_string body "text");
           type := Some (Js.prop_string body "type");
           time := now c |} ].
Proof.
  intros Hc Hk Hs. unfold post_messages.
  rewrite (validate_conforms schemaMessage _ eq_refl Hc).
  destruct (conforms_message_field _ Hc) as (-> & -> & ->).
  faults_cases w; run_db;
    destruct (findOne_known _ _ Hk) as (p & -> & _); eauto.
Qed.

(** C10: registration is not atomic.  The participant is inserted
    before the join message; when the message insert throws, the answer
    is 500 and the participant stays registered. *)
Theorem registration_not_atomic (c : clock) (body : Js.json) (w : world)
    (later : list bool) :
  conforms schemaName body ->
  ~ known (Some (Js.prop_string body "name")) w ->
  faults w = false :: false :: true :: later ->
  let user := {| name := Some (Js.prop_string body "name");
                 lastStatus := Date_now c |} in
  exists r w',
    post_participants c body w = (Return r, w') /\
    status r = 500 /\
    participants (db w') = participants (db w) ++ [user] /\
    messages (db w') = messages (db w) /\
    exists q m,
      trace w' = trace w ++ [ (Mongo.ParticipantsFindOne q, true);
                              (Mongo.ParticipantsInsertOne user, true);
                              (Mongo.MessagesInsertOne m, false) ].
Proof.
  intros Hc Hk Hf user. unfold post_participants.
  rewrite (validate_conforms schemaName _ eq_refl Hc), (conforms_name_field _ Hc).
  destruct w as [[ps ms] fs tr co]. unfold known in *. simpl in *. subst fs.
  run_db. rewrite (findOne_unknown _ _ Hk). cbn.
  do 2 eexists. repeat split; try reflexivity.
  do 2 eexists. rewrite <- !app_assoc. reflexivity.
Qed.

(** A body the validator turns down, sent to [POST /participants] or
    to [POST /messages], is answered 422 with every violation's
    message, at least one, and the world is left untouched: no
    participant, no message, no driver call. *)
Theorem invalid_payload_rejected (c : clock) (user : option string)
    (body : Js.json) (w : world) :
  (~ accepted schemaName body ->
   exists errors,
     post_participants c body w = (Return (send 422 (Errors errors)), w) /\
     errors <> [] /\
     forall msg, In msg errors <->
       exists d, violates schemaName body d /\ Joi.message d = msg) /\
  (~ accepted schemaMessage body ->
   exists errors,
     post_messages c user body w = (Return (send 422 (Errors errors)), w) /\
     errors <> [] /\
     forall msg, In msg errors <->
       exists d, violates schemaMessage body d /\ Joi.message d = msg).
Proof.
  split; intros Hn; destruct (validate_violates _ _ Hn) as [Hne He];
    [unfold post_participants | unfold post_messages]; rewrite He; cbn;
    (eexists; split; [reflexivity|]; split;
     [ intros H; apply map_eq_nil in H; contradiction
     | intros msg; rewrite in_map_iff; split; intros (d & H1 & H2);
       exists d; [apply violations_complete in H2 | apply violations_complete in H1];
       tauto ]).
Qed.

(** ** The sweep, call by call *)

Lemma filter_reflect {A} (f : A -> bool) (P : A -> Prop) `{!forall x, Decision (P x)}
    (l : list A) :
  (forall x, f x = true <-> P x) -> List.filter f l = filter P l.
Proof.
  intros Hf. induction l as [|x l IH]; [reflexivity|].
  simpl. rewrite filter_cons. destruct (decide (P x)) as [Hp|Hp].
  - apply Hf in Hp. rewrite Hp. now f_equal.
  - destruct (f x) eqn:Hx; [|assumption]. apply Hf in Hx. contradiction.
Qed.

Lemma found_inactive c ps :
  Mongo.find (Mongo.pmatch (Mongo.PLastStatusLte (Date_now c - 10000))) ps
  = filter (inactive c) ps.
Proof.
  apply filter_reflect. intros p. unfold inactive. simpl. apply Z.leb_le.
Qed.

Lemma name_injective ps p q :
  List.NoDup (map name ps) -> In p ps -> In q ps -> name p = name q -> p = q.
Proof.
  induction ps as [|a ps IH]; simpl; [tauto|].
  intros Hnd Hp Hq He. inversion Hnd as [|? ? Ha Hnd']; subst.
  destruct Hp as [->|Hp], Hq as [->|Hq]; auto.
  - destruct Ha. rewrite He. now apply in_map.
  - destruct Ha. rewrite <- He. now apply in_map.
Qed.

(** [deleteMany({ name: { $in: names } })] removes the participants
    whose name is one of [names]. *)
Lemma deleted_names (vs : list (option string)) ps :
  Mongo.deleteMany (Mongo.pmatch (Mongo.PNameIn vs)) ps
  = filter (fun p => name p ∉ vs) ps.
Proof.
  unfold Mongo.deleteMany. apply filter_reflect. intros p. simpl.
  rewrite negb_true_iff, list_elem_of_In. split.
  - intros He Hin. assert (Ht : existsb (fun v => Mongo.eq_field v (name p)) vs = true).
    { apply existsb_exists. exists (name p). split; [exact Hin|].
      now apply eq_field_spec. }
    congruence.
  - intros Hn. apply not_true_is_false. intros He.
    apply existsb_exists in He as (v & Hv & He). apply eq_field_spec in He.
    subst v. contradiction.
Qed.

Lemma deleted_by_name c ps :
  List.NoDup (map name ps) ->
  Mongo.deleteMany
    (Mongo.pmatch (Mongo.PNameIn (map name (filter (inactive c) ps)))) ps
  = filter (fun p => ~ inactive c p) ps.
Proof.
  intros Hnd. unfold Mongo.deleteMany.
  rewrite <- (filter_reflect
                (fun p => negb (lastStatus p <=? Date_now c - 10000))
                (fun p => ~ inactive c p)).
  2:{ intros p. unfold inactive. rewrite negb_true_iff, Z.leb_gt. lia. }
  apply filter_ext_in. intros p Hp. f_equal. simpl.
  destruct (lastStatus p <=? Date_now c - 10000) eqn:Hl.
  - apply existsb_exists. exists (name p). split; [|now apply eq_field_spec].
    apply in_map. apply list_elem_of_In, list_elem_of_filter. split.
    + unfold inactive. now apply Z.leb_le.
    + now apply list_elem_of_In.
  - apply not_true_is_false. intros He. apply existsb_exists in He as (n & Hn & He).
    apply eq_field_spec in He. subst n. apply in_map_iff in Hn as (q & Hq & Hin).
    apply list_elem_of_In, list_elem_of_filter in Hin as [Hi Hin].
    apply list_elem_of_In in Hin.
    assert (q = p) by (apply (name_injective ps); auto). subst q.
    unfold inactive in Hi. apply Z.leb_gt in Hl. lia.
Qed.

Lemma deleteMany_none {A} (l : list A) :
  Mongo.deleteMany (fun _ => false) l = l.
Proof.
  unfold Mongo.deleteMany. induction l as [|a l IH]; simpl; [reflexivity|].
  f_equal. exact IH.
Qed.

(** What one sweep does, call by call. *)
Lemma sweep_when_all_succeed c w :
  succeeds 3 w ->
  let gone := filter (inactive c) (participants (db w)) in
  exists w',
    removeInactiveUsers c w = (Return tt, w') /\
    participants (db w') =
      Mongo.deleteMany (Mongo.pmatch (Mongo.PNameIn (map name gone)))
        (participants (db w)) /\
    messages (db w') = messages (db w) ++ map (departure c) gone.
Proof.
  intros Hs gone. unfold removeInactiveUsers.
  assert (Hnone : forall ps : list participant,
             Mongo.deleteMany (Mongo.pmatch (Mongo.PNameIn [])) ps = ps)
    by (intros; apply deleteMany_none).
  faults_cases w; run_db; rewrite found_inactive; fold gone;
    destruct gone as [|g gone]; cbn;
    eexists; (split; [reflexivity|]); cbn; rewrite ?Hnone, ?app_nil_r; auto.
Qed.

Lemma sweep_cases c w :
  let gone := filter (inactive c) (participants (db w)) in
  exists w' calls,
    removeInactiveUsers c w = (Return tt, w') /\
    trace w' = trace w ++ calls /\
    ((calls = [(sweep_find c, false)] /\ db w' = db w /\
      exists later, faults w = true :: later)
     \/ (calls = [(sweep_find c, true)] /\ gone = [] /\ db w' = db w)
     \/ (calls = [(sweep_find c, true); (sweep_insert c gone, false)] /\
         db w' = db w /\
         exists later, faults w = false :: true :: later)
     \/ (calls = [(sweep_find c, true); (sweep_insert c gone, true);
                  (sweep_delete gone, false)] /\
         gone <> [] /\
         participants (db w') = participants (db w) /\
         messages (db w') = messages (db w) ++ map (departure c) gone /\
         exists later, faults w = false :: false :: true :: later /\
                       faults w' = later)
     \/ (calls = [(sweep_find c, true); (sweep_insert c gone, true);
                  (sweep_delete gone, true)] /\
         gone <> [] /\ succeeds 3 w /\
         participants (db w') =
           Mongo.deleteMany (Mongo.pmatch (Mongo.PNameIn (map name gone)))
             (participants (db w)) /\
         messages (db w') = messages (db w) ++ map (departure c) gone)).
Proof.
  intros gone. unfold removeInactiveUsers, sweep_find, sweep_insert, sweep_delete.
  destruct w as [[ps ms] fs tr co]. unfold succeeds. simpl in *.
  subst gone.
  destruct fs as [|[] [|[] [|[] fs]]]; run_db; rewrite ?found_inactive;
    destruct (filter (inactive c) ps) as [|g gone]; cbn; rewrite <- ?app_assoc; cbn;
    do 2 eexists; (split; [reflexivity|]); cbn; (split; [reflexivity|]);
    first [ left; split; [reflexivity|]; split; [reflexivity|];
            eexists; reflexivity
          | right; left; repeat split; reflexivity
          | right; right; left; split; [reflexivity|]; split; [reflexivity|];
            eexists; reflexivity
          | right; right; right; left; repeat split; try reflexivity;
            [discriminate | eexists; split; reflexivity]
          | right; right; right; right; repeat split; try reflexivity;
            discriminate ].
Qed.

(** ** Listing messages *)

Lemma found_visible user ms :
  Mongo.find
    (Mongo.mmatch (Mongo.MOr [Mongo.MTo user; Mongo.MTo (Some "Todos");
                              Mongo.MFrom user])) ms
  = filter (visible user) ms.
Proof.
  apply filter_reflect. intros m. unfold visible.
  cbn [Mongo.mmatch existsb].
  rewrite !orb_true_iff, !eq_field_spec.
  split.
  - intros [H|[H|[H|H]]]; auto; discriminate.
  - intros [H|[H|H]]; auto.
Qed.

Lemma truncate_negate m e :
  Js.truncate (- m) e = - Js.truncate m e.
Proof.
  unfold Js.truncate. destruct (Z.leb_spec 0 e); [ring|]. apply Z.quot_opp_l.
  apply Z.pow_nonzero; lia.
Qed.

Lemma integer_Fin x n :
  integer x = Some n ->
  exists m e, x = Js.Fin m e /\ Js.isInteger x = true /\ Js.truncate m e = n.
Proof.
  destruct x as [| |m e]; simpl; try discriminate.
  destruct (if 0 <=? e then true else m mod 2 ^ (- e) =? 0) eqn:Hi; [|discriminate].
  intros [= <-]. eauto.
Qed.

Lemma ltZ_integer m e :
  Js.isInteger (Js.Fin m e) = true ->
  Js.ltZ (Js.Fin m e) 1 = false <-> 1 <= Js.truncate m e.
Proof.
  unfold Js.isInteger, Js.ltZ, Js.truncate.
  destruct (Z.leb_spec 0 e) as [He|He]; intros Hi.
  - rewrite Z.ltb_ge. reflexivity.
  - apply Z.eqb_eq in Hi. rewrite Z.ltb_ge.
    assert (Hd : 0 < 2 ^ (- e)) by (apply Z.pow_pos_nonneg; lia).
    set (d := 2 ^ (- e)) in *.
    apply Z.mod_divide in Hi as [k ->]; [|lia].
    rewrite Z.quot_mul by lia. nia.
Qed.

Lemma accepted_limit x :
  negb (Js.isInteger x) || Js.ltZ x 1 = false <-> positive_integer x.
Proof.
  unfold positive_integer. rewrite orb_false_iff, negb_false_iff. split.
  - intros [Hi Hl]. destruct x as [| |m e]; try discriminate.
    exists (Js.truncate m e). split.
    + unfold integer. now rewrite Hi.
    + now apply ltZ_integer.
  - intros (n & Hn & H1). apply integer_Fin in Hn as (m & e & -> & Hi & <-).
    split; [assumption|]. now apply ltZ_integer.
Qed.

Lemma slice_last {A} (l : list A) x n :
  integer x = Some n -> 1 <= n ->
  Js.slice l (Js.negate x) = drop (length l - Z.to_nat n) l.
Proof.
  intros Hn H1. apply integer_Fin in Hn as (m & e & -> & Hi & <-).
  unfold Js.slice. simpl. rewrite truncate_negate.
  destruct (Z.ltb_spec (- Js.truncate m e) 0); [|lia].
  f_equal. lia.
Qed.

Lemma drop_last {A} (l : list A) (k : nat) :
  drop (length l - k) l `suffix_of` l /\
  length (drop (length l - k) l) = Nat.min k (length l).
Proof.
  split; [apply suffix_drop|]. rewrite length_drop. lia.
Qed.

(** [GET /messages], case by case. *)
Lemma get_messages_cases user limit w :
  match limit with
  | None =>
      exists r w',
        get_messages user limit w = (Return r, w') /\
        db w' = db w /\
        (status r = 500
         \/ (status r = 200 /\
             body r = MessageList (filter (visible user) (messages (db w)))))
  | Some l =>
      match Js.plus l with
      | None => get_messages user limit w = (Throw Mongo.TypeError, w)
      | Some x =>
          exists r w',
            get_messages user limit w = (Return r, w') /\
            db w' = db w /\
            ((status r = 422 /\ w' = w /\ (exists s, body r = Text s) /\
              ~ positive_integer x)
             \/ (positive_integer x /\
                 (status r = 500
                  \/ (status r = 200 /\
                      body r = MessageList
                                 (Js.slice
                                    (filter (visible user) (messages (db w)))
                                    (Js.negate x))))))
      end
  end.
Proof.
  unfold get_messages, unary_plus.
  destruct limit as [l|].
  - destruct (Js.plus l) as [x|] eqn:Hx.
    + destruct (negb (Js.isInteger x) || Js.ltZ x 1) eqn:Hg.
      * assert (Hn : ~ positive_integer x)
          by (intros Hp; apply accepted_limit in Hp; congruence).
        apply orb_true_iff in Hg.
        unfold mbind, mret, Db_bind, Db_ret.
        destruct (negb (Js.isInteger x)) eqn:Hi.
        -- do 2 eexists. split; [reflexivity|]. split; [reflexivity|]. left.
           cbn. repeat split; eauto.
        -- destruct Hg as [Hg|Hg]; [discriminate|]. rewrite Hg.
           do 2 eexists. split; [reflexivity|]. split; [reflexivity|]. left.
           cbn. repeat split; eauto.
      * pose proof Hg as Hp. apply accepted_limit in Hp.
        apply orb_false_iff in Hg as [Hi Hl].
        destruct w as [[ps ms] [|[] fs] tr co]; run_db; rewrite ?Hi;
          cbn [faults db trace console]; rewrite ?Hl, ?found_visible;
          do 2 eexists; (split; [reflexivity|]); (split; [reflexivity|]); right;
          (split; [exact Hp|]);
          first [ left; reflexivity | right; split; reflexivity ].
    + reflexivity.
  - destruct w as [[ps ms] [|[] fs] tr co]; run_db; rewrite ?found_visible;
      do 2 eexists; (split; [reflexivity|]); (split; [reflexivity|]);
      first [ left; reflexivity | right; split; reflexivity ].
Qed.

(** C5: a successful [GET /messages] returns the stored messages
    addressed to the reader, addressed to "Todos" or sent by the reader,
    in store order; with a limit [n] it returns the last [n] of them,
    all of them when there are fewer. *)
Theorem messages_listed_for_reader (user : option string)
    (limit : option Js.qvalue) (w : world) (r : response) (w' : world) :
  get_messages user limit w = (Return r, w') ->
  status r = 200 ->
  let shown := filter (visible user) (messages (db w)) in
  match limit with
  | None => body r = MessageList shown
  | Some l =>
      exists x n out,
        Js.plus l = Some x /\
        integer x = Some n /\ 1 <= n /\
        body r = MessageList out /\
        out `suffix_of` shown /\
        Z.of_nat (length out) = Z.min n (Z.of_nat (length shown))
  end.
Proof.
  intros Hrun H200 shown.
  pose proof (get_messages_cases user limit w) as Hcases.
  destruct limit as [l|].
  - destruct (Js.plus l) as [x|] eqn:Hx; [|congruence].
    destruct Hcases as (r0 & w0 & Hrun0 & _ & Hcases).
    rewrite Hrun in Hrun0. injection Hrun0 as <- <-.
    destruct Hcases as [(H & _)|((n & Hn & H1) & [H|(_ & Hbody)])]; try congruence.
    rewrite (slice_last _ _ _ Hn H1) in Hbody.
    destruct (drop_last shown (Z.to_nat n)) as [Hsuf Hlen].
    exists x, n, (drop (length shown - Z.to_nat n) shown).
    repeat split; try assumption. fold shown in Hlen. lia.
  - destruct Hcases as (r0 & w0 & Hrun0 & _ & Hcases).
    rewrite Hrun in Hrun0. injection Hrun0 as <- <-.
    destruct Hcases as [H|(_ & Hbody)]; [congruence | exact Hbody].
Qed.

(** C6, amended: when [+limit] yields a Number, [GET /messages] is
    answered, and the answer is 422 exactly when [limit] is present and
    that Number, the value of [limit] rounded to binary64, is not an
    integer 1 or greater; the answer then carries a text, not a message
    list, and no driver call was made. *)
Theorem limit_rejected_iff_number_not_positive_integer (user : option string)
    (limit : option Js.qvalue) (w : world) :
  (forall l, limit = Some l -> Js.plus l <> None) ->
  exists r w',
    get_messages user limit w = (Return r, w') /\
    (status r = 422 <->
     exists l x, limit = Some l /\ Js.plus l = Some x /\
                 ~ positive_integer x) /\
    (status r = 422 -> w' = w /\ exists s, body r = Text s).
Proof.
  intros Hconv. pose proof (get_messages_cases user limit w) as Hcases.
  destruct limit as [l|].
  - destruct (Js.plus l) as [x|] eqn:Hx; [|now destruct (Hconv l eq_refl)].
    destruct Hcases as (r & w' & Hrun & _ & Hcases).
    exists r, w'. split; [exact Hrun|].
    destruct Hcases as [(H & Hw & Hb & Hn)|(Hp & [H|(H & _)])].
    + repeat split; auto. intros _. exists l, x. auto.
    + split; [split|]; try (intros; congruence).
      intros (l' & x' & [= <-] & Hx' & Hn). destruct Hn. congruence.
    + split; [split|]; try (intros; congruence).
      intros (l' & x' & [= <-] & Hx' & Hn). destruct Hn. congruence.
  - destruct Hcases as (r & w' & Hrun & _ & Hcases).
    exists r, w'. split; [exact Hrun|].
    destruct Hcases as [H|(H & _)];
      (split; [split|]; try (intros; congruence);
       intros (l' & x' & [=] & _)).
Qed.

(** ** Heartbeats *)

Lemma updateOne_first {A} (f : A -> bool) (set : A -> A) l p :
  Mongo.findOne f l = Some p ->
  exists pre post,
    l = pre ++ p :: post /\
    (forall q, In q pre -> f q = false) /\
    f p = true /\
    Mongo.updateOne f set l = pre ++ set p :: post.
Proof.
  unfold Mongo.findOne. induction l as [|a l IH]; simpl; [discriminate|].
  destruct (f a) eqn:Ha.
  - intros [= ->]. exists [], l. simpl. rewrite Ha. repeat split; auto. intros q [].
  - intros Hf. destruct (IH Hf) as (pre & post & -> & Hpre & Hp & Hu).
    exists (a :: pre), post. simpl. rewrite Hu. repeat split; auto.
    intros q [<-|Hq]; auto.
Qed.

Lemma succeeds_fewer n k w : (k <= n)%nat -> succeeds n w -> succeeds k w.
Proof.
  unfold succeeds. intros Hk. generalize (faults w) as fs. revert k Hk.
  induction n as [|n IH]; intros k Hk fs.
  - replace k with 0%nat by lia. reflexivity.
  - destruct k as [|k]; [reflexivity|]. destruct fs as [|b fs]; [reflexivity|].
    simpl. rewrite !andb_true_iff. intros [Hb Hn]. split; [exact Hb|].
    apply IH; [lia | exact Hn].
Qed.

(** [POST /status], case by case. *)
Lemma post_status_cases c user w :
  exists r w',
    post_status c user w = (Return r, w') /\
    messages (db w') = messages (db w) /\
    ((status r = 200 /\ succeeds 2 w /\
      exists pre p post,
        participants (db w) = pre ++ p :: post /\
        user = name p /\
        (forall q, In q pre -> user <> name q) /\
        participants (db w') = pre ++ beat c p :: post)
     \/ (status r = 404 /\ succeeds 1 w /\ ~ known user w /\ db w' = db w)
     \/ (status r = 500 /\
         (~ succeeds 1 w \/ (known user w /\ ~ succeeds 2 w)) /\
         db w' = db w)).
Proof.
  unfold post_status.
  destruct w as [[ps ms] fs tr co]. unfold succeeds, known. simpl.
  destruct (Mongo.findOne (Mongo.pmatch (Mongo.PName user)) ps) as [p|] eqn:Hf.
  - destruct (updateOne_first _ (beat c) _ _ Hf) as (pre & post & Hps & Hpre & Hp & Hu).
    simpl in Hp. apply eq_field_spec in Hp.
    assert (Hpre' : forall q, In q pre -> user <> name q).
    { intros q Hq He. apply Hpre in Hq. simpl in Hq.
      apply eq_field_spec in He. congruence. }
    assert (Hk : exists p, In p ps /\ user = name p).
    { exists p. split; [|exact Hp]. rewrite Hps. apply in_app_iff. right. now left. }
    destruct fs as [|[] [|[] fs]]; run_db; rewrite ?Hf; cbn;
      do 2 eexists; (split; [reflexivity|]); (split; [reflexivity|]); cbn;
      first [ left; split; [reflexivity|]; split; [reflexivity|];
              exists pre, p, post; repeat split; auto; exact Hu
            | right; right; split; [reflexivity|]; split; [|reflexivity];
              first [ left; intros Hx; simpl in Hx; discriminate
                    | right; split; [exact Hk | intros Hx; simpl in Hx; discriminate] ] ].
  - assert (Hn : ~ exists p, In p ps /\ user = name p).
    { intros (p & Hp & Hu). apply (find_none _ _ Hf) in Hp. simpl in Hp.
      apply eq_field_spec in Hu. congruence. }
    destruct fs as [|[] fs]; run_db; rewrite ?Hf; cbn;
      do 2 eexists; (split; [reflexivity|]); (split; [reflexivity|]); cbn;
      first [ right; left; repeat split; auto; fail
            | right; right; split; [reflexivity|]; split; [|reflexivity];
              left; intros Hx; simpl in Hx; discriminate ].
Qed.

(** C7: [POST /status] changes nothing but the [lastStatus] of the
    participant it is addressed to, which becomes now, with answer 200:
    messages, names and every other participant stay as they were; an
    unknown user gets 404 and no participant is created. *)
Theorem heartbeat_only_sets_lastStatus (c : clock) (user : option string)
    (w : world) :
  exists r w',
    post_status c user w = (Return r, w') /\
    messages (db w') = messages (db w) /\
    names w' = names w /\
    ((status r = 200 /\
      exists pre p post,
        participants (db w) = pre ++ p :: post /\
        user = name p /\
        (forall q, In q pre -> user <> name q) /\
        participants (db w') =
          pre ++ {| name := name p; lastStatus := Date_now c |} :: post)
     \/ (status r = 404 /\ ~ known user w /\ db w' = db w)
     \/ (status r = 500 /\ db w' = db w)) /\
    (~ known user w -> succeeds 1 w -> status r = 404 /\ db w' = db w) /\
    (known user w -> succeeds 2 w -> status r = 200).
Proof.
  destruct (post_status_cases c user w) as (r & w' & Hrun & Hm & Hcases).
  exists r, w'. split; [exact Hrun|]. split; [exact Hm|].
  destruct Hcases as [(H & Hs & pre & p & post & Hps & Hu & Hpre & Hps')
                     |[(H & Hs & Hk & Hdb)|(H & Hk & Hdb)]].
  - split; [|split; [|split]].
    + unfold names. rewrite Hps, Hps', !map_app. reflexivity.
    + left. split; [exact H|]. exists pre, p, post. auto.
    + intros Hk _. destruct Hk. exists p. split; [|exact Hu].
      rewrite Hps. apply in_app_iff. right. now left.
    + auto.
  - split; [|split; [|split]].
    + unfold names. now rewrite Hdb.
    + right. left. auto.
    + auto.
    + intros Hk'. contradiction.
  - split; [|split; [|split]].
    + unfold names. now rewrite Hdb.
    + right. right. auto.
    + intros Hn Hs. destruct Hk as [Hk|[Hk _]]; contradiction.
    + intros Hk' Hs. destruct Hk as [Hk|[_ Hk]]; [destruct Hk|contradiction].
      revert Hs. apply succeeds_fewer. lia.
Qed.

(** ** The reaper *)

Lemma In_filter {A} (P : A -> Prop) `{!forall x, Decision (P x)} (l : list A) x :
  In x (filter P l) <-> P x /\ In x l.
Proof. rewrite <- !list_elem_of_In. apply list_elem_of_filter. Qed.

(** The registration nothing comes between is the registration. *)
Lemma registration_not_interleaved c body others1 others2 w :
  (forall s, others1 s = s) -> (forall s, others2 s = s) ->
  post_participants_interleaved c body others1 others2 w
  = post_participants c body w.
Proof.
  intros H1 H2. unfold post_participants_interleaved, post_participants.
  destruct (Joi.error _); [reflexivity|].
  destruct w as [[ps ms] fs tr co].
  destruct fs as [|[] [|[] [|[] fs]]]; run_db;
    destruct (Mongo.findOne
                (Mongo.pmatch (Mongo.PName (Js.field body "name"))) ps);
    cbn; rewrite ?H1; cbn; rewrite ?H2; reflexivity.
Qed.

(** The sweep nothing comes between is the sweep. *)
Lemma sweep_not_interleaved c others1 others2 w :
  (forall s, others1 s = s) -> (forall s, others2 s = s) ->
  removeInactiveUsers_interleaved c others1 others2 w = removeInactiveUsers c w.
Proof.
  intros H1 H2. unfold removeInactiveUsers_interleaved, removeInactiveUsers.
  destruct w as [[ps ms] fs tr co].
  destruct fs as [|[] [|[] [|[] fs]]]; run_db;
    destruct (Mongo.find
                (Mongo.pmatch (Mongo.PLastStatusLte (Date_now c - 10000))) ps)
      as [|g gone];
    cbn; rewrite ?H1; cbn; rewrite ?H2; reflexivity.
Qed.

(** What one sweep does when its calls succeed, whatever comes between
    them. *)
Lemma sweep_interleaved_when_all_succeed c others1 others2 w :
  succeeds 3 w ->
  let found := filter (inactive c) (participants (db w)) in
  let at_delete :=
    others2 (on_messages (fun ms => ms ++ map (departure c) found)
               (others1 (db w))) in
  exists w',
    removeInactiveUsers_interleaved c others1 others2 w = (Return tt, w') /\
    (found = [] -> db w' = db w) /\
    (found <> [] ->
     messages (db w') = messages at_delete /\
     participants (db w') =
       filter (fun p => name p ∉ map name found) (participants at_delete)).
Proof.
  intros Hs found at_delete. unfold removeInactiveUsers_interleaved.
  subst at_delete.
  faults_cases w; run_db; rewrite found_inactive; fold found;
    destruct found as [|g found]; cbn;
    eexists; (split; [reflexivity|]); cbn;
    (split; [intros; first [reflexivity | discriminate]|]);
    intros Hne; try (now destruct Hne);
    (split; [reflexivity|]); apply deleted_names.
Qed.

(** C1, amended: a sweep whose calls succeed records one broadcast
    status message "sai da sala..." from the name of each participant
    its [find] returns, those last heard of 10 seconds ago or earlier,
    and its [deleteMany] removes the participants then in the
    collection that bear the name of one of them, whatever other
    requests wrote between the three calls.  When nothing comes between
    them and no two participants share a name, the sweep removes
    exactly the participants last heard of 10 seconds ago or earlier,
    and a participant whose heartbeat was answered within the 10
    seconds before the sweep stays. *)
Theorem sweep_removes_by_name (c : clock)
    (others1 others2 : store -> store) (w : world) :
  succeeds 3 w ->
  let found := filter (inactive c) (participants (db w)) in
  let notices :=
    map (fun p => {| from := name p; to := Some "Todos";
                     text := Some "sai da sala..."; type := Some "status";
                     time := now c |})
        found in
  let at_delete :=
    others2 (on_messages (fun ms => ms ++ notices) (others1 (db w))) in
  exists w',
    removeInactiveUsers_interleaved c others1 others2 w = (Return tt, w') /\
    (found = [] -> db w' = db w) /\
    (found <> [] ->
     messages (db w') = messages at_delete /\
     participants (db w') =
       filter (fun p => name p ∉ map name found) (participants at_delete)) /\
    ((forall s, others1 s = s) -> (forall s, others2 s = s) ->
     removeInactiveUsers c w = (Return tt, w') /\
     messages (db w') = messages (db w) ++ notices /\
     participants (db w') =
       filter (fun p => name p ∉ map name found) (participants (db w)) /\
     (unique_names w ->
      participants (db w') =
        filter (fun p => ~ inactive c p) (participants (db w)) /\
      (forall p, In p (participants (db w)) ->
         (In p (participants (db w')) <-> ~ inactive c p)) /\
      (forall c0 user w0 r,
         post_status c0 user w0 = (Return r, w) ->
         status r = 200 ->
         Date_now c - Date_now c0 < 10000 ->
         exists p,
           user = name p /\ lastStatus p = Date_now c0 /\
           In p (participants (db w'))))).
Proof.
  intros Hs found notices at_delete.
  destruct (sweep_interleaved_when_all_succeed c others1 others2 w Hs)
    as (w' & Hrun & Hnone & Hsome).
  fold found in Hnone, Hsome. exists w'. split; [exact Hrun|].
  split; [exact Hnone|]. split; [exact Hsome|].
  intros H1 H2. rewrite (sweep_not_interleaved c _ _ w H1 H2) in Hrun.
  destruct (sweep_when_all_succeed c w Hs) as (w1 & Hrun1 & Hps & Hms).
  rewrite Hrun in Hrun1. injection Hrun1 as <-.
  split; [exact Hrun|]. split; [exact Hms|].
  split; [rewrite Hps; apply deleted_names|].
  intros Hu. rewrite (deleted_by_name c _ Hu) in Hps.
  split; [exact Hps|]. split.
  - intros p Hp. rewrite Hps, In_filter. tauto.
  - intros c0 user w0 r Hrun0 H200 Hc.
    destruct (post_status_cases c0 user w0) as (r0 & w1 & Hrun1 & _ & Hcases).
    rewrite Hrun0 in Hrun1. injection Hrun1 as <- <-.
    destruct Hcases as [(_ & _ & pre & p & post & _ & Hp & _ & Hps0)|[(H & _)|(H & _)]];
      try congruence.
    exists (beat c0 p). split; [exact Hp|]. split; [reflexivity|].
    rewrite Hps. apply In_filter. split.
    + unfold inactive, beat. simpl. lia.
    + rewrite Hps0. apply in_app_iff. right. now left.
Qed.

(** C2: a sweep never throws; it inserts the departure messages
    before it deletes, so that a failed delete leaves the departures
    recorded and the participants in place, for the next sweep to remove
    them (and record their departure again). *)
Theorem departures_recorded_before_deletion (c : clock) (w : world) :
  let gone := filter (inactive c) (participants (db w)) in
  let notices := map (departure c) gone in
  exists w' calls,
    removeInactiveUsers c w = (Return tt, w') /\
    trace w' = trace w ++ calls /\
    (forall q ok, In (Mongo.ParticipantsDeleteMany q, ok) calls ->
       exists find,
         calls = [ find; (Mongo.MessagesInsertMany notices, true);
                   (Mongo.ParticipantsDeleteMany q, ok) ] /\
         messages (db w') = messages (db w) ++ notices) /\
    (forall later,
       faults w = false :: false :: true :: later -> gone <> [] ->
       participants (db w') = participants (db w) /\
       messages (db w') = messages (db w) ++ notices /\
       faults w' = later /\
       forall c2,
         unique_names w -> Date_now c <= Date_now c2 -> succeeds 3 w' ->
         exists w'',
           removeInactiveUsers c2 w' = (Return tt, w'') /\
           (forall p, In p gone -> ~ In p (participants (db w''))) /\
           messages (db w'') =
             messages (db w) ++ notices ++
             map (departure c2)
               (filter (inactive c2) (participants (db w)))).
Proof.
  intros gone notices.
  destruct (sweep_cases c w) as (w' & calls & Hrun & Htr & Hcases).
  fold gone in Hcases. unfold sweep_find, sweep_insert, sweep_delete in Hcases.
  fold notices in Hcases.
  exists w', calls. split; [exact Hrun|]. split; [exact Htr|].
  destruct Hcases as [(-> & Hdb & l & Hl)|[(-> & Hg & Hdb)|[(-> & Hdb & l & Hl)
                     |[(-> & Hg & Hps & Hms & later & Hf & Hf')
                      |(-> & Hg & Hs & Hps & Hms)]]]].
  - split.
    + intros q ok [[=]|[]].
    + intros later Hf. congruence.
  - split.
    + intros q ok [[=]|[]].
    + intros later _ Hn. contradiction.
  - split.
    + intros q ok [[=]|[[=]|[]]].
    + intros later Hf. congruence.
  - split.
    + intros q ok [[=]|[[=]|[[= <- <-]|[]]]]. eauto.
    + intros later' Hfw _. rewrite Hfw in Hf. injection Hf as <-.
      split; [exact Hps|]. split; [exact Hms|]. split; [exact Hf'|].
      intros c2 Hu Hc Hs.
      destruct (sweep_when_all_succeed c2 w' Hs) as (w'' & Hrun2 & Hps2 & Hms2).
      assert (Hu' : List.NoDup (map name (participants (db w')))) by now rewrite Hps.
      rewrite (deleted_by_name c2 _ Hu') in Hps2.
      exists w''. split; [exact Hrun2|]. split.
      * intros p Hp. rewrite Hps2, In_filter. intros [Ha _]. apply Ha.
        apply In_filter in Hp as [Hi _]. unfold inactive in *. lia.
      * rewrite Hms2, Hms, Hps, <- app_assoc. reflexivity.
  - split.
    + intros q ok [[=]|[[=]|[[= <- <-]|[]]]]. eauto.
    + intros later Hf. exfalso. revert Hs. unfold succeeds. rewrite Hf. discriminate.
Qed.

(** ** Invariants of the server *)

(** [POST /participants], whatever the driver does: it answers, and it
    adds a participant only under a name nobody holds. *)
Lemma post_participants_cases c body w :
  exists r w',
    post_participants c body w = (Return r, w') /\
    (participants (db w') = participants (db w)
     \/ (~ known (Js.field body "name") w /\
         participants (db w') =
           participants (db w) ++
           [ {| name := Js.field body "name";
                lastStatus := Date_now c |} ])).
Proof.
  unfold post_participants.
  destruct (Joi.error _) as [err|]; [cbn; eauto|].
  destruct w as [[ps ms] fs tr co]. unfold known. simpl.
  destruct (Mongo.findOne
              (Mongo.pmatch (Mongo.PName (Js.field body "name"))) ps)
    as [p|] eqn:Hf.
  - destruct fs as [|[] fs]; run_db; rewrite ?Hf; cbn; eauto.
  - assert (Hn : ~ exists p, In p ps /\ Js.field body "name" = name p).
    { intros (p & Hp & Hu). apply (find_none _ _ Hf) in Hp.
      cbn [Mongo.pmatch] in Hp. apply eq_field_spec in Hu. congruence. }
    destruct fs as [|[] [|[] [|[] fs]]]; run_db; rewrite ?Hf; cbn; eauto 7.
Qed.

Lemma post_messages_cases c user body w :
  exists r w',
    post_messages c user body w = (Return r, w') /\
    participants (db w') = participants (db w).
Proof.
  unfold post_messages.
  destruct (Joi.error _) as [err|]; [cbn; eauto|].
  destruct w as [[ps ms] fs tr co]. simpl.
  destruct (Mongo.findOne (Mongo.pmatch (Mongo.PName user)) ps) as [p|] eqn:Hf;
    destruct fs as [|[] [|[] fs]]; run_db; rewrite ?Hf; cbn; eauto.
Qed.

Lemma get_participants_cases w :
  exists r w', get_participants w = (Return r, w') /\ db w' = db w.
Proof.
  unfold get_participants. destruct w as [[ps ms] [|[] fs] tr co]; run_db; eauto.
Qed.

(** [GET /messages] writes nothing, and answers unless [+limit]
    throws. *)
Lemma get_messages_reads user limit w :
  db (snd (get_messages user limit w)) = db w /\
  ((exists r w', get_messages user limit w = (Return r, w'))
   \/ (exists l, limit = Some l /\ Js.plus l = None /\
                 get_messages user limit w = (Throw Mongo.TypeError, w))).
Proof.
  pose proof (get_messages_cases user limit w) as Hc.
  destruct limit as [l|].
  - destruct (Js.plus l) as [x|] eqn:Hx.
    + destruct Hc as (r & w' & Hrun & Hdb & _). rewrite Hrun. eauto.
    + rewrite Hc. split; [reflexivity|]. right. eauto.
  - destruct Hc as (r & w' & Hrun & Hdb & _). rewrite Hrun. eauto.
Qed.

Lemma NoDup_names_filter (f : participant -> bool) ps :
  List.NoDup (map name ps) -> List.NoDup (map name (List.filter f ps)).
Proof.
  induction ps as [|p ps IH]; simpl; [auto|].
  intros Hnd. inversion Hnd as [|? ? Hp Hnd']; subst.
  destruct (f p); simpl; [|auto]. constructor; [|auto].
  intros Hin. apply Hp. apply in_map_iff in Hin as (q & Hq & Hin).
  apply filter_In in Hin as [Hin _]. rewrite <- Hq. now apply in_map.
Qed.

(** A request answers, unless it is a [GET /messages] whose [+limit]
    throws. *)
Lemma handle_answers c r w :
  (exists resp w', handle c r w = (Return resp, w'))
  \/ (exists user l,
        r = GetMessages user (Some l) /\ Js.plus l = None /\
        handle c r w = (Throw Mongo.TypeError, w)).
Proof.
  destruct r as [body| |user body|user limit|user]; simpl.
  - destruct (post_participants_cases c body w) as (resp & w' & Hrun & _). eauto.
  - destruct (get_participants_cases w) as (resp & w' & Hrun & _). eauto.
  - destruct (post_messages_cases c user body w) as (resp & w' & Hrun & _). eauto.
  - destruct (get_messages_reads user limit w) as [_ [H|(l & -> & Hl & H)]]; eauto 7.
  - destruct (post_status_cases c user w) as (resp & w' & Hrun & _). eauto.
Qed.

Lemma handle_keeps_names_unique c r w :
  unique_names w -> unique_names (snd (handle c r w)).
Proof.
  unfold unique_names, names. destruct r as [body| |user body|user limit|user]; simpl.
  - destruct (post_participants_cases c body w) as (resp & w' & -> & Hps).
    intros Hu. simpl.
    destruct Hps as [->|[Hn ->]]; [exact Hu|].
    rewrite map_app. simpl. apply List.NoDup_app; [exact Hu | |].
    + constructor; [intros []|constructor].
    + intros n Hin [<-|[]]. apply Hn. apply in_map_iff in Hin as (p & Hp & Hin).
      exists p. split; [exact Hin | congruence].
  - destruct (get_participants_cases w) as (resp & w' & -> & Hdb).
    simpl. now rewrite Hdb.
  - destruct (post_messages_cases c user body w) as (resp & w' & -> & Hps).
    simpl. now rewrite Hps.
  - destruct (get_messages_reads user limit w) as [-> _]. auto.
  - destruct (post_status_cases c user w) as (resp & w' & -> & _ & Hcases).
    simpl.
    destruct Hcases as [(_ & _ & pre & p & post & Hps & _ & _ & Hps')
                       |[(_ & _ & _ & Hdb)|(_ & _ & Hdb)]];
      rewrite ?Hdb; auto.
    now rewrite Hps, Hps', !map_app.
Qed.

Lemma sweep_keeps_names_unique c w :
  exists w',
    removeInactiveUsers c w = (Return tt, w') /\
    (unique_names w -> unique_names w').
Proof.
  destruct (sweep_cases c w) as (w' & calls & Hrun & _ & Hcases).
  exists w'. split; [exact Hrun|]. unfold unique_names, names.
  destruct Hcases as [(_ & H & _)|[(_ & _ & H)|[(_ & H & _)
                     |[(_ & _ & H & _)|(_ & _ & _ & H & _)]]]];
    rewrite H; auto.
  apply NoDup_names_filter.
Qed.

(** While requests and sweeps are handled one at a time, each to its
    end before the next, no two participants share a name, whichever
    driver calls failed. *)
Theorem names_stay_unique (events : list event) (faults : list bool) :
  unique_names (run events (start faults)).
Proof.
  assert (Hstep : forall e w, unique_names w -> unique_names (step e w)).
  { intros [c r|c] w Hu; simpl.
    - now apply handle_keeps_names_unique.
    - destruct (sweep_keeps_names_unique c w) as (w' & -> & H). auto. }
  unfold run.
  generalize (start faults),
    (List.NoDup_nil (option string) : unique_names (start faults)).
  induction events as [|e events IH]; intros w Hu; simpl; [exact Hu|].
  apply IH, Hstep, Hu.
Qed.

(** No failure of a driver call escapes a handler or the sweep: every
    sweep returns, and every request is answered but a [GET /messages]
    whose [+limit] throws, which leaves the handler with a TypeError
    before anything is asked of the store. *)
Theorem no_driver_failure_escapes (e : event) (w : world) :
  match e with
  | Request c r =>
      (exists resp w', handle c r w = (Return resp, w'))
      \/ (exists user l,
            r = GetMessages user (Some l) /\ Js.plus l = None /\
            handle c r w = (Throw Mongo.TypeError, w))
  | Sweep c => exists w', removeInactiveUsers c w = (Return tt, w')
  end.
Proof.
  destruct e as [c r|c].
  - apply handle_answers.
  - destruct (sweep_keeps_names_unique c w) as (w' & H & _). eauto.
Qed.

(** ** The properties on the example room *)

Lemma room_names_unique faults : unique_names (room faults).
Proof.
  unfold unique_names, names. simpl.
  repeat constructor; simpl; intuition discriminate.
Qed.

Lemma name_body_conforms n : n <> "" -> conforms schemaName (name_body n).
Proof.
  intros Hn. exists [("name", Js.JString n)]. split; [reflexivity|]. split.
  - intros ks [<-|[]]. exists n. split; [reflexivity | exact Hn].
  - intros k v [[= <- <-]|[]]. eexists. split; [left; reflexivity | reflexivity].
Qed.

Lemma message_body_conforms receiver words :
  receiver <> "" -> words <> "" ->
  conforms schemaMessage (message_body receiver words "message").
Proof.
  intros Hr Hw. eexists. split; [reflexivity|]. split.
  - intros ks [<-|[<-|[<-|[]]]]; eexists; (split; [reflexivity|]); simpl; auto.
  - intros k v [[= <- <-]|[[= <- <-]|[[= <- <-]|[]]]];
      apply declared_spec; reflexivity.
Qed.

Lemma nobody_called (n : string) faults :
  n <> "ana" -> n <> "bia" -> ~ known (Some n) (room faults).
Proof.
  intros Ha Hb (p & [<-|[<-|[]]] & [= ->]); contradiction.
Qed.

(** C1 as stated fails in three places.  Where two participants share
    a name, which two registrations that overlap leave behind, the
    sweep removes the one heard of a second ago along with its stale
    namesake.  Where the sweep's [find] throws, nobody is removed.  And
    a heartbeat that reaches the store between the sweep's [find] and
    its [deleteMany] does not save its sender: the sweep deletes by the
    names it found. *)
Lemma sweep_is_not_exact :
  let stale := {| name := Some "ana"; lastStatus := 1700000005000 |} in
  let fresh := {| name := Some "ana"; lastStatus := 1700000019000 |} in
  let c := at_ms 1700000020000 in
  let w := {| db := {| participants := [stale; fresh]; messages := [] |};
              faults := []; trace := []; console := [] |} in
  let heartbeat :=
    on_participants
      (Mongo.updateOne (Mongo.pmatch (Mongo.PName (Some "ana"))) (beat c)) in
  (In fresh (participants (db w)) /\
   ~ inactive c fresh /\
   ~ In fresh (participants (db (snd (removeInactiveUsers c w))))) /\
  (inactive c ana /\
   In ana (participants (db (snd (removeInactiveUsers c (room [true])))))) /\
  (In (beat c ana) (participants (heartbeat (db (room [])))) /\
   ~ inactive c (beat c ana) /\
   participants (db (snd (removeInactiveUsers_interleaved c heartbeat
                            (fun s => s) (room []))))
   = []).
Proof.
  cbv zeta. split; [split; [right; now left|]; split|split; split].
  - unfold inactive. simpl. lia.
  - intros [].
  - unfold inactive. simpl. lia.
  - now left.
  - now left.
  - split; [|reflexivity]. unfold inactive. simpl. lia.
Qed.

(** C1 on the room: [bia]'s heartbeat came 5 seconds before the sweep. *)
Lemma sweep_removes_by_name_witness :
  succeeds 3 room_after_heartbeat /\
  exists w',
    removeInactiveUsers (at_ms 1700000020000) room_after_heartbeat
      = (Return tt, w') /\
    participants (db w')
      = [ {| name := Some "bia"; lastStatus := 1700000015000 |} ] /\
    messages (db w') =
      talk ++ [ {| from := Some "ana"; to := Some "Todos";
                   text := Some "sai da sala..."; type := Some "status";
                   time := "19:13:40" |} ] /\
    exists p, In p (participants (db w')) /\ name p = Some "bia".
Proof.
  assert (Hu : unique_names room_after_heartbeat).
  { unfold unique_names, names. simpl.
    repeat constructor; simpl; intuition discriminate. }
  split; [reflexivity|].
  destruct (sweep_removes_by_name (at_ms 1700000020000)
              (fun s => s) (fun s => s) room_after_heartbeat eq_refl)
    as (w' & _ & _ & _ & Hquiet).
  destruct (Hquiet (fun _ => eq_refl) (fun _ => eq_refl))
    as (Hrun & Hms & _ & Hunique).
  destruct (Hunique Hu) as (Hps & _ & Hbeat).
  destruct (Hbeat (at_ms 1700000015000) (Some "bia") (room []) _ eq_refl eq_refl)
    as (p & Hn & _ & Hp); [simpl; lia|].
  exists w'. split; [exact Hrun|].
  split; [rewrite Hps; reflexivity|]. split; [rewrite Hms; reflexivity|].
  exists p. split; [exact Hp | congruence].
Defined.

(** C2 on the room: the delete of the first sweep fails. *)
Lemma departures_recorded_before_deletion_witness :
  exists w' w'',
    removeInactiveUsers (at_ms 1700000020000) (room [false; false; true])
      = (Return tt, w') /\
    trace w' =
      [ (sweep_find (at_ms 1700000020000), true);
        (sweep_insert (at_ms 1700000020000) [ana; bia], true);
        (sweep_delete [ana; bia], false) ] /\
    participants (db w') = [ana; bia] /\
    messages (db w') =
      talk ++ map (departure (at_ms 1700000020000)) [ana; bia] /\
    removeInactiveUsers (at_ms 1700000035000) w' = (Return tt, w'') /\
    ~ In ana (participants (db w'')) /\ ~ In bia (participants (db w'')) /\
    messages (db w'') =
      talk ++ map (departure (at_ms 1700000020000)) [ana; bia]
           ++ map (departure (at_ms 1700000035000)) [ana; bia].
Proof.
  destruct (departures_recorded_before_deletion (at_ms 1700000020000)
              (room [false; false; true]))
    as (w' & calls & Hrun & Htr & _ & Hfail).
  destruct (Hfail [] eq_refl) as (Hps & Hms & Hf & Hnext); [discriminate|].
  destruct (Hnext (at_ms 1700000035000) (room_names_unique _))
    as (w'' & Hrun2 & Hgone & Hms2).
  { simpl. lia. }
  { unfold succeeds. now rewrite Hf. }
  exists w', w''. split; [exact Hrun|].
  split; [injection Hrun as <-; reflexivity|].
  split; [exact Hps|]. split; [exact Hms|]. split; [exact Hrun2|].
  split; [apply Hgone; now left|]. split; [apply Hgone; right; now left|].
  exact Hms2.
Defined.

(** C3 on the room: [ana] registers again. *)
Lemma register_taken_name_witness :
  conforms schemaName (name_body "ana") /\
  known (Some "ana") (room []) /\
  unique_names (room []) /\
  succeeds 1 (room []) /\
  exists r w',
    post_participants (at_ms 1700000020000) (name_body "ana") (room [])
      = (Return r, w') /\
    status r = 409 /\ db w' = db (room []) /\ count_name "ana" w' = 1%nat.
Proof.
  assert (Hc : conforms schemaName (name_body "ana"))
    by (apply name_body_conforms; discriminate).
  assert (Hk : known (Some "ana") (room []))
    by (exists ana; split; [now left | reflexivity]).
  split; [exact Hc|]. split; [exact Hk|]. split; [apply room_names_unique|].
  split; [reflexivity|].
  exact (register_taken_name (at_ms 1700000020000) (name_body "ana") (room [])
           Hc Hk (room_names_unique []) eq_refl).
Defined.

(** C4 on the room: [caio] registers. *)
Lemma register_fresh_name_witness :
  conforms schemaName (name_body "caio") /\
  ~ known (Some "caio") (room []) /\
  succeeds 3 (room []) /\
  exists r w',
    post_participants (at_ms 1700000020000) (name_body "caio") (room [])
      = (Return r, w') /\
    status r = 201 /\
    participants (db w') =
      [ana; bia; {| name := Some "caio"; lastStatus := 1700000020000 |}] /\
    messages (db w') =
      talk ++ [ {| from := Some "caio"; to := Some "Todos";
                   text := Some "entra na sala...";
                   type := Some "status"; time := "19:13:40" |} ].
Proof.
  assert (Hc : conforms schemaName (name_body "caio"))
    by (apply name_body_conforms; discriminate).
  assert (Hk : ~ known (Some "caio") (room []))
    by (apply nobody_called; discriminate).
  split; [exact Hc|]. split; [exact Hk|]. split; [reflexivity|].
  destruct (register_fresh_name (at_ms 1700000020000) (name_body "caio")
              (room []) Hc Hk eq_refl)
    as (r & w' & Hrun & Hs & Hps & Hms & _).
  exists r, w'. auto.
Defined.

(** C5 on the room: [ana] asks for her last two messages. *)
Lemma messages_listed_for_reader_witness :
  exists r w',
    get_messages (Some "ana") (Some (Js.QString "2")) (room [])
      = (Return r, w') /\
    status r = 200 /\
    exists x n out,
      Js.plus (Js.QString "2") = Some x /\
      integer x = Some n /\ 1 <= n /\
      body r = MessageList out /\
      out `suffix_of` filter (visible (Some "ana")) talk /\
      Z.of_nat (length out) = Z.min n 5.
Proof.
  do 2 eexists. split; [reflexivity|]. split; [reflexivity|].
  exact (messages_listed_for_reader (Some "ana") (Some (Js.QString "2"))
           (room []) _ _ eq_refl eq_refl).
Defined.

(** C6 as stated fails on a [limit] that is no integer and rounds to
    one, which is answered 200; on a [limit] that is a positive integer
    beyond the doubles, which is answered 422; and on a [limit] whose
    conversion throws, which is not answered at all. *)
Lemma limit_not_a_positive_integer_not_rejected :
  let rounds := Js.QString "0.99999999999999999999" in
  let huge := Js.QString "1e400" in
  let throws := Js.QObject [("toString", Js.QString "x")] in
  (~ denotes_positive_integer rounds /\
   status_of (get_messages (Some "ana") (Some rounds) (room [])) = 200) /\
  (denotes_positive_integer huge /\
   status_of (get_messages (Some "ana") (Some huge) (room [])) = 422) /\
  (~ denotes_positive_integer throws /\
   get_messages (Some "ana") (Some throws) (room [])
     = (Throw Mongo.TypeError, room [])).
Proof.
  cbv zeta. split; [|split]; split.
  - intros (s & m & x & n & [= <-] & Hl & Hn & Hv).
    vm_compute in Hl. injection Hl as <- <-. simpl in Hv. lia.
  - vm_compute. reflexivity.
  - exists "1e400", 1, 400, (10 ^ 400).
    split; [reflexivity|]. split; [vm_compute; reflexivity|].
    split; [vm_compute; discriminate|]. simpl. lia.
  - vm_compute. reflexivity.
  - intros (s & m & x & n & Hs & _). discriminate Hs.
  - reflexivity.
Qed.

(** C6 on the room: a [limit] that is no number. *)
Lemma limit_rejected_iff_number_not_positive_integer_witness :
  (forall l, Some (Js.QString "abc") = Some l -> Js.plus l <> None) /\
  exists r w',
    get_messages (Some "ana") (Some (Js.QString "abc")) (room [])
      = (Return r, w') /\
    status r = 422 /\ w' = room [].
Proof.
  assert (Hconv : forall l, Some (Js.QString "abc") = Some l -> Js.plus l <> None)
    by (intros l [= <-]; discriminate).
  split; [exact Hconv|].
  destruct (limit_rejected_iff_number_not_positive_integer (Some "ana")
              (Some (Js.QString "abc")) (room []) Hconv)
    as (r & w' & Hrun & Hiff & Hthen).
  assert (H422 : status r = 422).
  { apply Hiff. exists (Js.QString "abc"), Js.NaN.
    split; [reflexivity|]. split; [reflexivity|].
    intros (n & Hn & _). discriminate Hn. }
  exists r, w'. split; [exact Hrun|]. split; [exact H422|].
  now destruct (Hthen H422).
Defined.

(** A registration without a name, a message with three things
    wrong. *)
Lemma invalid_payload_rejected_witness :
  ~ accepted schemaName (Js.JObject []) /\
  ~ accepted schemaMessage
      (Js.JObject [("to", Js.JNumber "1"); ("type", Js.JString "status")]) /\
  (exists errors,
     post_participants (at_ms 1700000020000) (Js.JObject []) (room [])
       = (Return (send 422 (Errors errors)), room []) /\
     errors <> []) /\
  (exists errors,
     post_messages (at_ms 1700000020000) (Some "ana")
       (Js.JObject [("to", Js.JNumber "1"); ("type", Js.JString "status")])
       (room [])
       = (Return (send 422 (Errors errors)), room []) /\
     errors <> [] /\
     In (Joi.label "text" +:+ " is required") errors).
Proof.
  assert (H1 : ~ accepted schemaName (Js.JObject []))
    by (intros H; apply violations_nil in H; discriminate H).
  assert (H2 : ~ accepted schemaMessage
                 (Js.JObject [("to", Js.JNumber "1");
                              ("type", Js.JString "status")]))
    by (intros H; apply violations_nil in H; discriminate H).
  split; [exact H1|]. split; [exact H2|].
  destruct (invalid_payload_rejected (at_ms 1700000020000) (Some "ana")
              (Js.JObject []) (room [])) as [Hname _].
  destruct (invalid_payload_rejected (at_ms 1700000020000) (Some "ana")
              (Js.JObject [("to", Js.JNumber "1");
                           ("type", Js.JString "status")]) (room []))
    as [_ Hmessage].
  destruct (Hname H1) as (e1 & Hr1 & Hn1 & _).
  destruct (Hmessage H2) as (e2 & Hr2 & Hn2 & Hall).
  split; [exists e1; auto|]. exists e2. repeat split; auto.
  apply Hall. exists (Joi.report "text" "any.required" " is required").
  split; [|reflexivity].
  apply (key_missing schemaMessage _
           [("to", Js.JNumber "1"); ("type", Js.JString "status")]
           {| Joi.key := "text"; Joi.only := None |});
    [reflexivity | right; now left | reflexivity].
Defined.

(** C9 on the room: [zeca] never registered. *)
Lemma unknown_sender_rejected_witness :
  conforms schemaMessage (message_body "Todos" "oi" "message") /\
  ~ known (Some "zeca") (room []) /\
  succeeds 1 (room []) /\
  exists w',
    post_messages (at_ms 1700000020000) (Some "zeca")
      (message_body "Todos" "oi" "message") (room [])
      = (Return (send 422 (Text "Remetente não encontrado")), w') /\
    db w' = db (room []).
Proof.
  assert (Hc : conforms schemaMessage (message_body "Todos" "oi" "message"))
    by (apply message_body_conforms; discriminate).
  assert (Hk : ~ known (Some "zeca") (room []))
    by (apply nobody_called; discriminate).
  split; [exact Hc|]. split; [exact Hk|]. split; [reflexivity|].
  exact (unknown_sender_rejected (at_ms 1700000020000) (Some "zeca")
           (message_body "Todos" "oi" "message") (room []) Hc Hk eq_refl).
Defined.

(** [ana] greets the room. *)
Lemma message_recorded_witness :
  conforms schemaMessage (message_body "Todos" "oi" "message") /\
  known (Some "ana") (room []) /\
  succeeds 2 (room []) /\
  exists w',
    post_messages (at_ms 1700000020000) (Some "ana")
      (message_body "Todos" "oi" "message") (room [])
      = (Return (sendStatus 201), w') /\
    participants (db w') = [ana; bia] /\
    messages (db w') =
      talk ++ [ {| from := Some "ana"; to := Some "Todos"; text := Some "oi";
                   type := Some "message"; time := "19:13:40" |} ].
Proof.
  assert (Hc : conforms schemaMessage (message_body "Todos" "oi" "message"))
    by (apply message_body_conforms; discriminate).
  assert (Hk : known (Some "ana") (room []))
    by (exists ana; split; [now left | reflexivity]).
  split; [exact Hc|]. split; [exact Hk|]. split; [reflexivity|].
  exact (message_recorded (at_ms 1700000020000) "ana"
           (message_body "Todos" "oi" "message") (room []) Hc Hk eq_refl).
Defined.

(** C10 on the room: the insert of [caio]'s join message fails. *)
Lemma registration_not_atomic_witness :
  conforms schemaName (name_body "caio") /\
  ~ known (Some "caio") (room [false; false; true]) /\
  exists r w',
    post_participants (at_ms 1700000020000) (name_body "caio")
      (room [false; false; true]) = (Return r, w') /\
    status r = 500 /\
    participants (db w') =
      [ana; bia; {| name := Some "caio"; lastStatus := 1700000020000 |}] /\
    messages (db w') = talk.
Proof.
  assert (Hc : conforms schemaName (name_body "caio"))
    by (apply name_body_conforms; discriminate).
  assert (Hk : ~ known (Some "caio") (room [false; false; true]))
    by (apply nobody_called; discriminate).
  split; [exact Hc|]. split; [exact Hk|].
  destruct (registration_not_atomic (at_ms 1700000020000) (name_body "caio")
              (room [false; false; true]) [] Hc Hk eq_refl)
    as (r & w' & Hrun & Hs & Hps & Hms & _).
  exists r, w'. auto.
Defined.

(** C7 on the room: a heartbeat from [bia], one from [zeca]. *)
Lemma heartbeat_only_sets_lastStatus_witness :
  known (Some "bia") (room []) /\ ~ known (Some "zeca") (room []) /\
  (exists r w',
     post_status (at_ms 1700000015000) (Some "bia") (room []) = (Return r, w') /\
     status r = 200 /\ messages (db w') = talk /\
     names w' = [Some "ana"; Some "bia"]) /\
  (exists r w',
     post_status (at_ms 1700000015000) (Some "zeca") (room []) = (Return r, w') /\
     status r = 404 /\ db w' = db (room [])).
Proof.
  assert (Hk : known (Some "bia") (room []))
    by (exists bia; split; [right; now left | reflexivity]).
  assert (Hn : ~ known (Some "zeca") (room []))
    by (apply nobody_called; discriminate).
  split; [exact Hk|]. split; [exact Hn|]. split.
  - destruct (heartbeat_only_sets_lastStatus (at_ms 1700000015000) (Some "bia")
                (room [])) as (r & w' & Hrun & Hms & Hnames & _ & _ & H200).
    exists r, w'. split; [exact Hrun|]. split; [exact (H200 Hk eq_refl)|].
    split; [exact Hms | exact Hnames].
  - destruct (heartbeat_only_sets_lastStatus (at_ms 1700000015000) (Some "zeca")
                (room [])) as (r & w' & Hrun & _ & _ & _ & H404 & _).
    exists r, w'. destruct (H404 Hn eq_refl). auto.
Defined.

(** The spec's examples, run. *)

Example register_twice :
  let c := at_ms 1700000020000 in
  let '(first, w1) := post_participants c (name_body "caio") (start []) in
  let '(second, w2) := post_participants c (name_body "caio") w1 in
  first = Return (sendStatus 201) /\
  second = Return (send 409 (Text "Nome de usuário indisponível")) /\
  count_name "caio" w2 = 1%nat.
Proof. vm_compute. auto. Qed.

Example register_without_name :
  post_participants (at_ms 1700000020000) (Js.JObject []) (start [])
  = (Return (send 422 (Errors [Joi.label "name" +:+ " is required"])),
     start []).
Proof. reflexivity. Qed.

Example message_with_three_violations :
  post_messages (at_ms 1700000020000) (Some "ana")
    (Js.JObject [("to", Js.JNumber "1"); ("type", Js.JString "status")])
    (room [])
  = (Return (send 422 (Errors
       [ Joi.label "to" +:+ " must be a string";
         Joi.label "text" +:+ " is required";
         Joi.label "type" +:+ " must be one of [message, private_message]" ])),
     room []).
Proof. reflexivity. Qed.

Example abort_early_reports_one :
  Joi.error
    (Joi.validate schemaMessage
       (Js.JObject [("to", Js.JNumber "1"); ("type", Js.JString "status")])
       {| Joi.abortEarly := true |})
  = Some {| Joi.details :=
              [Joi.report "to" "string.base" " must be a string"] |}.
Proof. reflexivity. Qed.

(** A member under the empty key is reported as [value]. *)
Example empty_key_is_labelled_value :
  post_participants (at_ms 1700000020000)
    (Js.JObject [("name", Js.JString "dani"); ("", Js.JNumber "1")])
    (start [])
  = (Return (send 422 (Errors
       [Joi.dq +:+ "value" +:+ Joi.dq +:+ " is not allowed"])),
     start []).
Proof. reflexivity. Qed.

(** C8 fails on a body that has no [name] and whose member
    [__proto__] holds one: the validator reads the name through
    [__proto__] and finds nothing wrong, the handler reads [body.name],
    which is [undefined], and the registration is answered 201 with a
    participant and a join message stored under null. *)
Theorem name_held_by_proto_is_registered :
  let body :=
    Js.JObject [("__proto__", Js.JObject [("name", Js.JString "dani")])] in
  let c := at_ms 1700000020000 in
  Js.prop body "name" = None /\
  ~ conforms schemaName body /\
  exists w',
    post_participants c body (start []) = (Return (sendStatus 201), w') /\
    participants (db w') = [ {| name := None; lastStatus := 1700000020000 |} ] /\
    messages (db w') =
      [ {| from := None; to := Some "Todos"; text := Some "entra na sala...";
           type := Some "status"; time := "19:13:40" |} ].
Proof.
  cbv zeta. split; [reflexivity|]. split.
  - intros (ms & [= <-] & _ & Hu).
    destruct (Hu "__proto__" _ (or_introl eq_refl)) as (ks & [<-|[]] & [=]).
  - eexists. split; [reflexivity|]. split; reflexivity.
Qed.

(** A member [__proto__] that is no object changes nothing. *)
Example proto_member_is_passed_over :
  fst (post_participants (at_ms 1700000020000)
         (Js.JObject [("name", Js.JString "dani"); ("__proto__", Js.JNumber "1")])
         (start []))
  = Return (sendStatus 201).
Proof. reflexivity. Qed.

(** Once a participant is stored under null, the requests that come
    without a [user] header are its own: the heartbeat is answered 200,
    and a second body of the same kind 409. *)
Example requests_without_user_reach_the_null_name :
  let body :=
    Js.JObject [("__proto__", Js.JObject [("name", Js.JString "dani")])] in
  let w1 := snd (post_participants (at_ms 1700000020000) body (start [])) in
  status_of (post_status (at_ms 1700000025000) None w1) = 200 /\
  status_of (post_participants (at_ms 1700000025000) body w1) = 409.
Proof. split; reflexivity. Qed.

Example last_two_of_five :
  fst (get_messages (Some "ana") (Some (Js.QString "2")) (room []))
  = Return (send 200 (MessageList
      [ chat "caio" "Todos" "cheguei" "message";
        chat "bia" "Todos" "tchau" "message" ])).
Proof. vm_compute. reflexivity. Qed.

Example limit_abc :
  get_messages (Some "ana") (Some (Js.QString "abc")) (room [])
  = (Return (send 422 (Text
       "O parâmetro 'limit' deve ser um número inteiro maior ou igual a 1.")),
     room []).
Proof. reflexivity. Qed.

Example limits_rejected :
  map (fun s => status_of (get_messages None (Some (Js.QString s)) (room [])))
      ["0"; "-1"; "1.5"; ""; "Infinity"; "1e400"; "2x"]
  = [422; 422; 422; 422; 422; 422; 422].
Proof. vm_compute. reflexivity. Qed.

Example limits_accepted :
  map (fun s => status_of (get_messages None (Some (Js.QString s)) (room [])))
      ["1"; " 7 "; "5.0"; "1e2"; "0x10"; "1.0000000000000000000000001"]
  = [200; 200; 200; 200; 200; 200].
Proof. vm_compute. reflexivity. Qed.

(** [limit] as an array or an object: an array converts through its
    elements, an object to NaN, which is no integer, and an object
    with a member [toString] does not convert. *)
Example limits_that_are_not_strings :
  map (fun l => option_map integer (Js.plus l))
      [ Js.QArray [Js.QString "3"];
        Js.QArray [Js.QString "1"; Js.QString "2"];
        Js.QObject [("a", Js.QString "1")];
        Js.QObject [("toString", Js.QString "1")];
        Js.QArray [Js.QObject [("toString", Js.QString "1")]] ]
  = [Some (Some 3); Some None; Some None; None; None].
Proof. vm_compute. reflexivity. Qed.

Example heartbeat_for_nobody :
  post_status (at_ms 1700000015000) None (room [])
  = (Return (sendStatus 404),
     {| db := db (room []); faults := [];
        trace := [(Mongo.ParticipantsFindOne (Mongo.PName None), true)];
        console := [] |}).
Proof. reflexivity. Qed.

(** * Further properties *)

(** ** Every handler, outcome by outcome *)

Lemma succeeds_head n w : succeeds (S n) w -> forall later, faults w <> true :: later.
Proof. unfold succeeds. intros H later Hf. rewrite Hf in H. discriminate H. Qed.

Lemma accepted_dec schema body : accepted schema body \/ ~ accepted schema body.
Proof.
  destruct (Joi.violations schema body) eqn:Hv.
  - left. now apply violations_nil.
  - right. intros H. apply violations_nil in H. congruence.
Qed.

(** [POST /participants]: validation, lookup, the two inserts. *)
Lemma post_participants_outcomes c body w :
  let n := Js.field body "name" in
  exists r w',
    post_participants c body w = (Return r, w') /\
    console w' = console w /\
    ((~ accepted schemaName body /\ status r = 422 /\ w' = w)
     \/ (accepted schemaName body /\
         ((status r = 500 /\ db w' = db w /\
           exists later, faults w = true :: later)
          \/ (known n w /\ succeeds 1 w /\
              r = send 409 (Text "Nome de usuário indisponível") /\
              db w' = db w /\
              trace w' = trace w ++
                [(Mongo.ParticipantsFindOne (Mongo.PName n), true)])
          \/ (~ known n w /\ status r = 500 /\ db w' = db w /\
              exists later, faults w = false :: true :: later)
          \/ (~ known n w /\ status r = 500 /\
              participants (db w') = participants (db w) ++ [newcomer c n] /\
              messages (db w') = messages (db w) /\
              exists later, faults w = false :: false :: true :: later)
          \/ (~ known n w /\ succeeds 3 w /\
              r = sendStatus 201 /\
              participants (db w') = participants (db w) ++ [newcomer c n] /\
              messages (db w') = messages (db w) ++ [arrival c n])))).
Proof.
  intros n. unfold post_participants.
  destruct (accepted_dec schemaName body) as [Hc|Hc].
  - rewrite (proj2 (validation_passes_iff _ _) Hc).
    destruct w as [[ps ms] fs tr co]. unfold known, succeeds. simpl.
    fold n.
    destruct (Mongo.findOne (Mongo.pmatch (Mongo.PName n)) ps) as [p|] eqn:Hf.
    + assert (Hk : exists p, In p ps /\ n = name p).
      { exists p. apply find_some in Hf as [Hp Hm]. cbn [Mongo.pmatch] in Hm.
        apply eq_field_spec in Hm. auto. }
      destruct fs as [|[] fs]; run_db; rewrite ?Hf; cbn;
        do 2 eexists; (split; [reflexivity|]); (split; [reflexivity|]);
        right; (split; [exact Hc|]);
        first [ left; repeat split; eauto; fail
              | right; left; repeat split; auto ].
    + assert (Hn : ~ exists p, In p ps /\ n = name p).
      { intros (p & Hp & Hu). apply (find_none _ _ Hf) in Hp.
        cbn [Mongo.pmatch] in Hp. apply eq_field_spec in Hu. congruence. }
      destruct fs as [|[] [|[] [|[] fs]]]; run_db; rewrite ?Hf; cbn;
        do 2 eexists; (split; [reflexivity|]); (split; [reflexivity|]);
        right; (split; [exact Hc|]);
        first [ left; repeat split; eauto; fail
              | right; right; left; repeat split; eauto; fail
              | right; right; right; left; repeat split; eauto; fail
              | right; right; right; right; repeat split; auto ].
  - destruct (validate_violates _ _ Hc) as [_ He]. rewrite He. cbn.
    do 2 eexists. split; [reflexivity|]. split; [reflexivity|]. left. auto.
Qed.

(** [POST /messages]: validation, lookup of the sender, the insert. *)
Lemma post_messages_outcomes c user body w :
  exists r w',
    post_messages c user body w = (Return r, w') /\
    console w' = console w /\
    participants (db w') = participants (db w) /\
    ((~ accepted schemaMessage body /\ status r = 422 /\ w' = w)
     \/ (accepted schemaMessage body /\
         ((status r = 500 /\ db w' = db w /\
           exists later, faults w = true :: later)
          \/ (~ known user w /\ succeeds 1 w /\
              r = send 422 (Text "Remetente não encontrado") /\
              db w' = db w)
          \/ (known user w /\ status r = 500 /\ db w' = db w /\
              exists later, faults w = false :: true :: later)
          \/ (known user w /\
              succeeds 2 w /\ r = sendStatus 201 /\
              messages (db w') = messages (db w) ++ [posted c user body])))).
Proof.
  unfold post_messages.
  destruct (accepted_dec schemaMessage body) as [Hc|Hc].
  - rewrite (proj2 (validation_passes_iff _ _) Hc).
    destruct w as [[ps ms] fs tr co]. unfold known, succeeds. simpl.
    destruct (Mongo.findOne (Mongo.pmatch (Mongo.PName user)) ps) as [p|] eqn:Hf.
    + assert (Hk : exists p, In p ps /\ user = name p).
      { exists p. apply find_some in Hf as [Hp Hm]. cbn [Mongo.pmatch] in Hm.
        apply eq_field_spec in Hm. auto. }
      destruct fs as [|[] [|[] fs]]; run_db; rewrite ?Hf; cbn;
        do 2 eexists; (split; [reflexivity|]); (split; [reflexivity|]);
        (split; [reflexivity|]); right; (split; [exact Hc|]);
        first [ left; repeat split; eauto; fail
              | right; right; left; repeat split; eauto; fail
              | right; right; right; repeat split; auto ].
    + assert (Hn : ~ exists p, In p ps /\ user = name p).
      { intros (p & Hp & Hu). apply (find_none _ _ Hf) in Hp.
        cbn [Mongo.pmatch] in Hp. apply eq_field_spec in Hu. congruence. }
      destruct fs as [|[] fs]; run_db; rewrite ?Hf; cbn;
        do 2 eexists; (split; [reflexivity|]); (split; [reflexivity|]);
        (split; [reflexivity|]); right; (split; [exact Hc|]);
        first [ left; repeat split; eauto; fail
              | right; left; repeat split; auto ].
  - destruct (validate_violates _ _ Hc) as [_ He]. rewrite He. cbn.
    do 2 eexists. split; [reflexivity|]. split; [reflexivity|].
    split; [reflexivity|]. left. auto.
Qed.

(** [GET /participants]: the find. *)
Lemma get_participants_outcomes w :
  exists r w',
    get_participants w = (Return r, w') /\
    db w' = db w /\
    ((succeeds 1 w /\
      r = send 200 (ParticipantList (participants (db w))) /\
      console w' = console w)
     \/ (exists later, faults w = true :: later) /\
        r = sendStatus 500 /\
        console w' =
          console w ++ [Mongo.StoreError (Mongo.ParticipantsFind Mongo.PAll)]).
Proof.
  unfold get_participants, succeeds.
  assert (Hall : forall ps : list participant,
             Mongo.find (Mongo.pmatch Mongo.PAll) ps = ps).
  { intros ps. unfold Mongo.find. induction ps as [|p ps IH]; simpl; congruence. }
  destruct w as [[ps ms] [|[] fs] tr co]; run_db; rewrite ?Hall;
    do 2 eexists; (split; [reflexivity|]); (split; [reflexivity|]);
    first [ left; repeat split; reflexivity
          | right; repeat split; eauto ].
Qed.

(** [GET /messages]: the conversion and the check of [limit], the
    find. *)
Lemma get_messages_outcomes user limit w :
  let shown := filter (visible user) (messages (db w)) in
  (exists l, limit = Some l /\ Js.plus l = None /\
             get_messages user limit w = (Throw Mongo.TypeError, w))
  \/ exists r w',
       get_messages user limit w = (Return r, w') /\
       db w' = db w /\
       (((exists l x, limit = Some l /\ Js.plus l = Some x /\
                      ~ positive_integer x) /\
         r = send 422 (Text
           "O parâmetro 'limit' deve ser um número inteiro maior ou igual a 1.") /\
         w' = w)
        \/ ((exists later, faults w = true :: later) /\ r = sendStatus 500)
        \/ (succeeds 1 w /\
            ((limit = None /\ r = send 200 (MessageList shown))
             \/ (exists l x, limit = Some l /\ Js.plus l = Some x /\
                             positive_integer x /\
                             r = send 200 (MessageList
                                   (Js.slice shown (Js.negate x))))))).
Proof.
  intros shown. subst shown. unfold get_messages, unary_plus, succeeds.
  destruct limit as [l|].
  - destruct (Js.plus l) as [x|] eqn:Hx; [|left; eauto].
    right. destruct (negb (Js.isInteger x) || Js.ltZ x 1) eqn:Hg.
    + assert (Hn : ~ positive_integer x)
        by (intros Hp; apply accepted_limit in Hp; congruence).
      apply orb_true_iff in Hg.
      unfold mbind, mret, Db_bind, Db_ret.
      destruct (negb (Js.isInteger x)) eqn:Hi.
      * do 2 eexists. split; [reflexivity|]. split; [reflexivity|]. left.
        repeat split; eauto.
      * destruct Hg as [Hg|Hg]; [discriminate|]. rewrite Hg.
        do 2 eexists. split; [reflexivity|]. split; [reflexivity|]. left.
        repeat split; eauto.
    + pose proof Hg as Hp. apply accepted_limit in Hp.
      apply orb_false_iff in Hg as [Hi Hl].
      destruct w as [[ps ms] [|[] fs] tr co]; run_db; rewrite ?Hi;
        cbn [faults db trace console]; rewrite ?Hl, ?found_visible;
        do 2 eexists; (split; [reflexivity|]); (split; [reflexivity|]); right;
        first [ left; split; [eexists|]; reflexivity
              | right; split; [reflexivity|]; right; exists l, x;
                repeat split; auto ].
  - right.
    destruct w as [[ps ms] [|[] fs] tr co]; run_db; rewrite ?found_visible;
      do 2 eexists; (split; [reflexivity|]); (split; [reflexivity|]); right;
      first [ left; split; [eexists|]; reflexivity
            | right; split; [reflexivity|]; left; split; reflexivity ].
Qed.

(** ** The routes and their answers *)

(** [GET /participants] answers 200 with the whole collection, in store
    order, or, when the find throws, 500 after printing the error; the
    collections are the same afterwards. *)
Theorem participants_listed (w : world) :
  exists r w',
    get_participants w = (Return r, w') /\
    db w' = db w /\
    ((succeeds 1 w /\
      r = send 200 (ParticipantList (participants (db w))) /\
      console w' = console w)
     \/ ((exists later, faults w = true :: later) /\
         r = sendStatus 500 /\
         console w' =
           console w ++
           [Mongo.StoreError (Mongo.ParticipantsFind Mongo.PAll)])).
Proof.
  destruct (get_participants_outcomes w) as (r & w' & Hrun & Hdb & Hcases).
  exists r, w'. repeat split; auto.
Qed.

(** The handler of a route answers with one of the statuses of that
    route, when it answers; it does not only when it is that of
    [GET /messages] and [+limit] throws, before any call to the
    store. *)
Theorem answers_within_statuses (c : clock) (r : request) (w : world) :
  match handle c r w with
  | (Return resp, _) => In (status resp) (statuses r)
  | (Throw e, w') =>
      e = Mongo.TypeError /\ w' = w /\
      exists user l, r = GetMessages user (Some l) /\ Js.plus l = None
  end.
Proof.
  destruct r as [body| |user body|user limit|user]; simpl.
  - destruct (post_participants_outcomes c body w)
      as (r & w' & -> & _ & [(_ & H & _)|(_ & [(H & _)|[(_ & _ & -> & _)
         |[(_ & H & _)|[(_ & H & _)|(_ & _ & -> & _)]]]])]);
      rewrite ?H; simpl; auto 6.
  - destruct (get_participants_outcomes w)
      as (r & w' & -> & _ & [(_ & -> & _)|(_ & -> & _)]); simpl; auto.
  - destruct (post_messages_outcomes c user body w)
      as (r & w' & -> & _ & _ & [(_ & H & _)|(_ & [(H & _)|[(_ & _ & -> & _)
         |[(_ & H & _)|(_ & _ & -> & _)]]])]);
      rewrite ?H; simpl; auto 6.
  - destruct (get_messages_outcomes user limit w)
      as [(l & -> & Hl & ->)
         |(r & w' & -> & _ & [(_ & -> & _)|[(_ & ->)
           |(_ & [(_ & ->)|(l & x & _ & _ & _ & ->)])]])];
      simpl; eauto 7.
  - destruct (post_status_cases c user w)
      as (r & w' & -> & _ & [(H & _)|[(H & _)|(H & _)]]);
      rewrite H; simpl; auto.
Qed.

(** A request answered with a client error (a 4xx status), and every
    GET whatever its answer, leaves both collections as they were. *)
Theorem rejected_and_reads_change_nothing (c : clock) (r : request)
    (w : world) (resp : response) (w' : world) :
  handle c r w = (Return resp, w') ->
  400 <= status resp < 500 \/ is_get r = true ->
  db w' = db w.
Proof.
  intros Hrun Hcond.
  destruct r as [body| |user body|user limit|user]; simpl in *.
  - destruct (post_participants_outcomes c body w)
      as (r0 & w0 & Hrun0 & _ & Hcases).
    rewrite Hrun in Hrun0. injection Hrun0 as <- <-.
    destruct Hcond as [Hs|[=]].
    destruct Hcases as [(_ & _ & ->)|(_ & [(_ & H & _)|[(_ & _ & _ & H & _)
         |[(_ & _ & H & _)|[(_ & H & _)|(_ & _ & -> & _)]]]])];
      auto; simpl in Hs; lia.
  - destruct (get_participants_outcomes w) as (r0 & w0 & Hrun0 & Hdb & _).
    rewrite Hrun in Hrun0. now injection Hrun0 as <- <-.
  - destruct (post_messages_outcomes c user body w)
      as (r0 & w0 & Hrun0 & _ & _ & Hcases).
    rewrite Hrun in Hrun0. injection Hrun0 as <- <-.
    destruct Hcond as [Hs|[=]].
    destruct Hcases as [(_ & _ & ->)|(_ & [(_ & H & _)|[(_ & _ & _ & H)
         |[(_ & _ & H & _)|(_ & _ & -> & _)]]])];
      auto; simpl in Hs; lia.
  - destruct (get_messages_reads user limit w) as [Hdb _].
    rewrite Hrun in Hdb. exact Hdb.
  - destruct (post_status_cases c user w) as (r0 & w0 & Hrun0 & _ & Hcases).
    rewrite Hrun in Hrun0. injection Hrun0 as <- <-.
    destruct Hcond as [Hs|[=]].
    destruct Hcases as [(H & _)|[(_ & _ & _ & H)|(_ & _ & H)]]; auto.
    rewrite H in Hs. lia.
Qed.

(** When the store is down at the first driver call of a request, the
    answer is 500 and both collections are as they were; a request
    turned down before any call is answered 422 all the same, and a
    [GET /messages] whose [+limit] throws is not answered, as ever. *)
Theorem store_down_at_first_call (c : clock) (r : request) (w : world)
    (later : list bool) :
  faults w = true :: later ->
  (exists resp w',
     handle c r w = (Return resp, w') /\
     db w' = db w /\
     (status resp = 500 \/ (status resp = 422 /\ w' = w)))
  \/ (exists user l,
        r = GetMessages user (Some l) /\ Js.plus l = None /\
        handle c r w = (Throw Mongo.TypeError, w)).
Proof.
  intros Hf.
  assert (Hs : forall n, ~ succeeds (S n) w).
  { intros n Hn. exact (succeeds_head _ _ Hn _ Hf). }
  destruct r as [body| |user body|user limit|user]; simpl.
  - left. destruct (post_participants_outcomes c body w)
      as (r & w' & Hrun & _ & Hcases). exists r, w'. split; [exact Hrun|].
    destruct Hcases as [(_ & H & ->)|(_ & [(H & Hdb & _)|[(_ & H & _)
         |[(_ & _ & _ & l & H)|[(_ & _ & _ & _ & l & H)|(_ & H & _)]]]])];
      auto; try congruence; now destruct (Hs _ H).
  - left. destruct (get_participants_outcomes w)
      as (r & w' & Hrun & Hdb & [(H & _)|(_ & -> & _)]);
      [now destruct (Hs _ H)|]. exists (sendStatus 500), w'. auto.
  - left. destruct (post_messages_outcomes c user body w)
      as (r & w' & Hrun & _ & _ & Hcases). exists r, w'. split; [exact Hrun|].
    destruct Hcases as [(_ & H & ->)|(_ & [(H & Hdb & _)|[(_ & H & _)
         |[(_ & _ & _ & l & H)|(_ & H & _)]]])];
      auto; try congruence; now destruct (Hs _ H).
  - destruct (get_messages_outcomes user limit w)
      as [(l & -> & Hl & Hrun)
         |(r & w' & Hrun & Hdb & [(_ & -> & ->)|[(_ & ->)|(H & _)]])];
      [right; eauto | left | left | now destruct (Hs _ H)]; eauto 7.
  - left. destruct (post_status_cases c user w)
      as (r & w' & Hrun & _ & [(_ & H & _)|[(_ & H & _)|(H & _ & Hdb)]]);
      [now destruct (Hs _ H)|now destruct (Hs _ H)|]. eauto 7.
Qed.

(** ** What the store holds, whatever happened *)

Lemma run_snoc events e w : run (events ++ [e]) w = step e (run events w).
Proof. unfold run. now rewrite fold_left_app. Qed.

Lemma run_invariant (I : world -> Prop) :
  (forall e w, I w -> I (step e w)) ->
  forall events w, I w -> I (run events w).
Proof.
  intros Hstep events. induction events as [|e events IH]; intros w Hw; [exact Hw|].
  apply IH, Hstep, Hw.
Qed.

(** One event, seen from the collections: what was added, and what
    happened to the participants that were there. *)
Lemma step_outcomes e w :
  (messages (db (step e w)) = messages (db w) /\
   (participants (db (step e w)) = participants (db w)
    \/ (exists c body,
          e = Request c (PostParticipants body) /\
          accepted schemaName body /\
          participants (db (step e w)) =
            participants (db w) ++
            [newcomer c (Js.field body "name")])
    \/ (exists c user pre p post,
          e = Request c (PostStatus user) /\ user = name p /\
          participants (db w) = pre ++ p :: post /\
          participants (db (step e w)) = pre ++ beat c p :: post)))
  \/ (exists c body,
        e = Request c (PostParticipants body) /\
        accepted schemaName body /\
        participants (db (step e w)) =
          participants (db w) ++ [newcomer c (Js.field body "name")] /\
        messages (db (step e w)) =
          messages (db w) ++ [arrival c (Js.field body "name")])
  \/ (exists c user body,
        e = Request c (PostMessages user body) /\
        accepted schemaMessage body /\ known user w /\
        participants (db (step e w)) = participants (db w) /\
        messages (db (step e w)) = messages (db w) ++ [posted c user body])
  \/ (exists c gone,
        e = Sweep c /\ gone = filter (inactive c) (participants (db w)) /\
        messages (db (step e w)) = messages (db w) ++ map (departure c) gone /\
        (participants (db (step e w)) = participants (db w)
         \/ participants (db (step e w)) =
              Mongo.deleteMany (Mongo.pmatch (Mongo.PNameIn (map name gone)))
                (participants (db w)))).
Proof.
  destruct e as [c [body| |user body|user limit|user]|c]; simpl.
  - destruct (post_participants_outcomes c body w)
      as (r & w' & Hrun & _ & Hcases). rewrite Hrun. simpl.
    destruct Hcases as [(_ & _ & ->)|(Hc & [(_ & -> & _)|[(_ & _ & _ & -> & _)
         |[(_ & _ & -> & _)|[(_ & _ & Hp & Hm & _)|(_ & _ & _ & Hp & Hm)]]]])];
      auto.
    + left. split; [exact Hm|]. right. left. eauto.
    + right. left. eauto 6.
  - destruct (get_participants_outcomes w) as (r & w' & Hrun & Hdb & _).
    rewrite Hrun. simpl. rewrite Hdb. auto.
  - destruct (post_messages_outcomes c user body w)
      as (r & w' & Hrun & _ & Hps & Hcases). rewrite Hrun. simpl.
    destruct Hcases as [(_ & _ & ->)|(Hc & [(_ & -> & _)|[(_ & _ & _ & ->)
         |[(_ & _ & -> & _)|(Hk & _ & _ & Hm)]]])]; auto.
    right. right. left. exists c, user, body. auto 7.
  - destruct (get_messages_reads user limit w) as [-> _]. auto.
  - destruct (post_status_cases c user w) as (r & w' & Hrun & Hm & Hcases).
    rewrite Hrun. simpl.
    left. split; [exact Hm|].
    destruct Hcases as [(_ & _ & pre & p & post & Hps & Hu & _ & Hps')
                       |[(_ & _ & _ & ->)|(_ & _ & ->)]]; auto.
    right. right. exists c, user, pre, p, post. auto.
  - destruct (sweep_cases c w) as (w' & calls & Hrun & _ & Hcases).
    rewrite Hrun. simpl.
    destruct Hcases as [(_ & -> & _)|[(_ & _ & ->)|[(_ & -> & _)
         |[(_ & _ & Hp & Hm & _)|(_ & _ & _ & Hp & Hm)]]]]; auto;
      right; right; right; exists c; eexists; (split; [reflexivity|]);
      (split; [reflexivity|]); auto.
Qed.

(** Messages are only ever appended: what the store held stays, in its
    place, through every request and every sweep. *)
Theorem messages_append_only (events : list event) (w : world) :
  messages (db w) `prefix_of` messages (db (run events w)).
Proof.
  apply (run_invariant (fun w' => messages (db w) `prefix_of` messages (db w')));
    [|reflexivity].
  intros e w' Hpre. etransitivity; [exact Hpre|].
  destruct (step_outcomes e w')
    as [(-> & _)|[(c & b & _ & _ & _ & ->)|[(c & u & b & _ & _ & _ & _ & ->)
       |(c & g & _ & _ & -> & _)]]];
    [reflexivity | | |]; now apply prefix_app_r.
Qed.

Lemma two_digits_length n : String.length (two_digits n) = 2%nat.
Proof. reflexivity. Qed.

Lemma length_append (s t : string) :
  String.length (s +:+ t) = (String.length s + String.length t)%nat.
Proof. induction s as [|a s IH]; simpl; [reflexivity | now rewrite IH]. Qed.

Lemma now_length c : String.length (now c) = 8%nat.
Proof. unfold now. rewrite !length_append, !two_digits_length. reflexivity. Qed.

(** [now()] keeps the time of day and drops the date: two instants a
    whole number of days apart are stamped alike, and every stamp is
    eight characters long. *)
Theorem now_drops_the_date (c : clock) (days : Z) :
  now (days_later days c) = now c /\ String.length (now c) = 8%nat.
Proof.
  split; [|apply now_length]. unfold now, days_later. simpl.
  set (local := epoch_ms c + utc_offset c * 60000).
  replace (epoch_ms c + 86400000 * days + utc_offset c * 60000)
    with (local + (86400 * days) * 1000) by (unfold local; ring).
  rewrite Z.div_add by lia. set (s := local / 1000).
  replace (s + 86400 * days) with (s + (24 * days) * 3600) at 1 by ring.
  rewrite Z.div_add by lia.
  replace (s / 3600 + 24 * days) with (s / 3600 + days * 24) by ring.
  rewrite Z.mod_add by lia.
  replace (s + 86400 * days) with (s + (1440 * days) * 60) at 1 by ring.
  rewrite Z.div_add by lia.
  replace (s / 60 + 1440 * days) with (s / 60 + (24 * days) * 60) by ring.
  rewrite Z.mod_add by lia.
  replace (s + 86400 * days) with (s + (1440 * days) * 60) by ring.
  rewrite Z.mod_add by lia. reflexivity.
Qed.

Lemma member_own k members :
  k <> "__proto__" -> Js.member k (Joi.own members) = Js.member k members.
Proof.
  intros Hk. unfold Joi.own. induction members as [|[k' v] ms IH]; [reflexivity|].
  simpl. destruct (String.eqb_spec k' "__proto__") as [->|Hne]; simpl.
  - destruct (String.eqb_spec k "__proto__"); [contradiction | exact IH].
  - now rewrite IH.
Qed.

(** What a handler reads of a key in a body the validator accepted:
    nothing, when the body has no such member of its own, or the
    string the validator passed. *)
Lemma accepted_field schema body ks :
  accepted schema body -> In ks schema -> Joi.key ks <> "__proto__" ->
  Js.field body (Joi.key ks) = None
  \/ exists s, Js.field body (Joi.key ks) = Some s /\
               match Joi.only ks with
               | Some vs => In s vs
               | None => s <> ""
               end.
Proof.
  intros (ms & -> & Hk & _) Hks Hp. unfold Js.field. simpl.
  destruct (Js.member (Joi.key ks) ms) as [x|] eqn:Hm; [|now left].
  destruct (Hk ks Hks) as (s & Hs & Hok).
  unfold Joi.lookup in Hs. rewrite (member_own _ _ Hp), Hm in Hs.
  injection Hs as ->. right. eauto.
Qed.

Lemma accepted_name_not_empty body :
  accepted schemaName body -> Js.field body "name" <> Some "".
Proof.
  intros Hc.
  destruct (accepted_field schemaName body {| Joi.key := "name"; Joi.only := None |} Hc)
    as [H|(s & H & Hs)]; [now left | discriminate | | ]; simpl in *; congruence.
Qed.

Lemma accepted_message_fields body :
  accepted schemaMessage body ->
  Js.field body "to" <> Some "" /\ Js.field body "text" <> Some "" /\
  (Js.field body "type" = Some "message"
   \/ Js.field body "type" = Some "private_message"
   \/ Js.field body "type" = None).
Proof.
  intros Hc.
  destruct (accepted_field schemaMessage body {| Joi.key := "to"; Joi.only := None |} Hc)
    as [Ht|(t & Ht & Hte)]; [now left | discriminate | | ];
  destruct (accepted_field schemaMessage body {| Joi.key := "text"; Joi.only := None |} Hc)
    as [Hx|(x & Hx & Hxe)]; try (right; now left); try discriminate;
  destruct (accepted_field schemaMessage body
              {| Joi.key := "type"; Joi.only := Some ["message"; "private_message"] |} Hc)
    as [Hy|(y & Hy & Hye)]; try (right; right; now left); try discriminate;
  simpl in *; rewrite ?Ht, ?Hx, ?Hy;
  (split; [congruence|]); (split; [congruence|]);
  intuition congruence.
Qed.

(** While requests and sweeps are handled one at a time: no participant
    is named by the empty string, and every message has a sender that
    is not the empty string, an eight-character time, and is either a
    notice of the server to everybody ("entra na sala...", "sai da
    sala...", of type status) or what a client posted, whose type is
    message, private_message or null and whose receiver and text are
    not the empty string: no client gets a status message in.  (A
    name, a receiver, a text or a type is null when the body had it in
    its member [__proto__] only.) *)
Theorem stored_documents_well_formed (events : list event)
    (faults : list bool) :
  let w := run events (start faults) in
  (forall p, In p (participants (db w)) -> name p <> Some "") /\
  (forall m, In m (messages (db w)) -> well_formed m).
Proof.
  apply (run_invariant
           (fun w => (forall p, In p (participants (db w)) -> name p <> Some "") /\
                     (forall m, In m (messages (db w)) -> well_formed m)));
    [|split; intros ? []].
  intros e w [Hps Hms].
  destruct (step_outcomes e w)
    as [(-> & Hp)|[(c & b & _ & Hc & -> & ->)
       |[(c & u & b & _ & Hc & (q & Hq & ->) & -> & ->)
        |(c & g & _ & -> & -> & Hp)]]].
  - split; [|exact Hms].
    destruct Hp as [->|[(c & b & _ & Hc & ->)|(c & u & pre & p & post & _ & _ & Hw & ->)]];
      [exact Hps | |].
    + intros p [Hp|[<-|[]]]%in_app_iff; [now apply Hps|].
      now apply accepted_name_not_empty.
    + rewrite Hw in Hps. intros q Hq.
      apply in_app_iff in Hq as [Hq|[<-|Hq]].
      * apply Hps, in_app_iff. now left.
      * change (name p <> Some ""). apply Hps, in_app_iff. right. now left.
      * apply Hps, in_app_iff. right. now right.
  - pose proof (accepted_name_not_empty _ Hc) as Hn. split.
    + intros p [Hp|[<-|[]]]%in_app_iff; [now apply Hps | exact Hn].
    + intros m [Hm|[<-|[]]]%in_app_iff; [now apply Hms|].
      split; [exact Hn|]. split; [apply now_length|]. left. simpl. auto.
  - split; [exact Hps|].
    intros m [Hm|[<-|[]]]%in_app_iff; [now apply Hms|].
    destruct (accepted_message_fields _ Hc) as (Ht & Hx & Hy).
    split; [now apply Hps|]. split; [apply now_length|]. right. simpl. auto.
  - split.
    + destruct Hp as [->| ->]; [exact Hps|].
      intros p Hin. apply filter_In in Hin as [Hin _]. now apply Hps.
    + intros m [Hm|Hm]%in_app_iff; [now apply Hms|].
      apply in_map_iff in Hm as (p & <- & Hg). apply In_filter in Hg as [_ Hg].
      split; [now apply Hps|]. split; [apply now_length|]. left. simpl. auto.
Qed.

(** The [lastStatus] of a participant is always the instant of a
    request the server handled for that name, its registration or one
    of its heartbeats: nothing else writes the field. *)
Theorem lastStatus_is_a_request_time (events : list event)
    (faults : list bool) (p : participant) :
  In p (participants (db (run events (start faults)))) ->
  exists c r,
    In (Request c r) events /\ touches (name p) r /\
    lastStatus p = Date_now c.
Proof.
  revert p. induction events as [|e events IH] using rev_ind; intros p.
  - intros [].
  - rewrite run_snoc. set (w := run events (start faults)) in *.
    assert (Hold : forall q, In q (participants (db w)) ->
              exists c r, In (Request c r) (events ++ [e]) /\
                          touches (name q) r /\ lastStatus q = Date_now c).
    { intros q Hq. destruct (IH q Hq) as (c & r & Hin & Ht & Hl).
      exists c, r. split; [apply in_app_iff; now left | auto]. }
    assert (Hlast : In e (events ++ [e])) by (apply in_app_iff; right; now left).
    intros Hp.
    destruct (step_outcomes e w)
      as [(_ & Hps)|[(c & b & He & _ & Hps & _)
         |[(c & u & b & _ & _ & _ & Hps & _)|(c & g & _ & _ & _ & Hps)]]].
    + destruct Hps as [Hps|[(c & b & He & _ & Hps)
                           |(c & u & pre & q & post & He & Hu & Hw & Hps)]];
        rewrite Hps in Hp.
      * now apply Hold.
      * apply in_app_iff in Hp as [Hp|[<-|[]]]; [now apply Hold|].
        exists c, (PostParticipants b). subst e. simpl. auto.
      * apply in_app_iff in Hp as [Hp|[<-|Hp]].
        -- apply Hold. rewrite Hw. apply in_app_iff. now left.
        -- exists c, (PostStatus u). subst e. simpl. auto.
        -- apply Hold. rewrite Hw. apply in_app_iff. right. now right.
    + rewrite Hps in Hp. apply in_app_iff in Hp as [Hp|[<-|[]]]; [now apply Hold|].
      exists c, (PostParticipants b). subst e. simpl. auto.
    + rewrite Hps in Hp. now apply Hold.
    + destruct Hps as [Hps|Hps]; rewrite Hps in Hp; [now apply Hold|].
      apply filter_In in Hp as [Hp _]. now apply Hold.
Qed.

(** ** The sweep: when it does nothing, and how soon it acts *)

(** A sweep, outcome by outcome: its calls, the collections, the
    console. *)
Lemma sweep_outcomes c w :
  let gone := filter (inactive c) (participants (db w)) in
  exists w' calls,
    removeInactiveUsers c w = (Return tt, w') /\
    trace w' = trace w ++ calls /\
    (((exists later, faults w = true :: later) /\
      calls = [(sweep_find c, false)] /\ db w' = db w /\
      console w' = console w ++ [Mongo.StoreError (sweep_find c)])
     \/ (succeeds 1 w /\ gone = [] /\
         calls = [(sweep_find c, true)] /\ db w' = db w /\
         console w' = console w)
     \/ ((exists later, faults w = false :: true :: later) /\ gone <> [] /\
         calls = [(sweep_find c, true); (sweep_insert c gone, false)] /\
         db w' = db w /\
         console w' = console w ++ [Mongo.StoreError (sweep_insert c gone)])
     \/ ((exists later, faults w = false :: false :: true :: later) /\
         gone <> [] /\
         calls = [(sweep_find c, true); (sweep_insert c gone, true);
                  (sweep_delete gone, false)] /\
         participants (db w') = participants (db w) /\
         messages (db w') = messages (db w) ++ map (departure c) gone /\
         console w' = console w ++ [Mongo.StoreError (sweep_delete gone)])
     \/ (succeeds 3 w /\ gone <> [] /\
         calls = [(sweep_find c, true); (sweep_insert c gone, true);
                  (sweep_delete gone, true)] /\
         participants (db w') =
           Mongo.deleteMany (Mongo.pmatch (Mongo.PNameIn (map name gone)))
             (participants (db w)) /\
         messages (db w') = messages (db w) ++ map (departure c) gone /\
         console w' = console w)).
Proof.
  intros gone. unfold removeInactiveUsers, sweep_find, sweep_insert, sweep_delete.
  destruct w as [[ps ms] fs tr co]. unfold succeeds. simpl in *. subst gone.
  destruct fs as [|[] [|[] [|[] fs]]]; run_db; rewrite ?found_inactive;
    destruct (filter (inactive c) ps) as [|g gone]; cbn; rewrite <- ?app_assoc; cbn;
    do 2 eexists; (split; [reflexivity|]); cbn; (split; [reflexivity|]);
    first [ left; split; [eexists; reflexivity|]; repeat split; reflexivity
          | right; left; repeat split; reflexivity
          | right; right; left; split; [eexists; reflexivity|];
            split; [discriminate|]; repeat split; reflexivity
          | right; right; right; left; split; [eexists; reflexivity|];
            split; [discriminate|]; repeat split; reflexivity
          | right; right; right; right; split; [reflexivity|];
            split; [discriminate|]; repeat split; reflexivity ].
Qed.

(** A sweep that finds nobody inactive makes its one find and stops; one
    whose find or insert throws prints the error and stops.  In all
    three cases both collections are as they were, no delete is
    attempted and no call but the find went through. *)
Theorem sweep_without_effect (c : clock) (w : world) :
  let gone := filter (inactive c) (participants (db w)) in
  (succeeds 1 w /\ gone = [])
  \/ (exists later, faults w = true :: later)
  \/ (exists later, faults w = false :: true :: later) ->
  exists w' calls,
    removeInactiveUsers c w = (Return tt, w') /\
    db w' = db w /\
    trace w' = trace w ++ calls /\
    (forall q ok, ~ In (Mongo.ParticipantsDeleteMany q, ok) calls) /\
    (forall call, In (call, true) calls -> call = sweep_find c) /\
    (console w' = console w \/
     exists call, In (call, false) calls /\
                  console w' = console w ++ [Mongo.StoreError call]).
Proof.
  intros gone Hwhy.
  destruct (sweep_outcomes c w) as (w' & calls & Hrun & Htr & Hcases).
  fold gone in Hcases. exists w', calls. split; [exact Hrun|].
  destruct Hcases as [(_ & -> & Hdb & Hco)|[(_ & _ & -> & Hdb & Hco)
       |[(_ & _ & -> & Hdb & Hco)|[((l & Hl) & Hg & _)|(Hs & Hg & _)]]]].
  - split; [exact Hdb|]. split; [exact Htr|]. split; [intros q ok [[=]|[]]|].
    split; [intros call [[=]|[]]|]. right. exists (sweep_find c).
    split; [now left | exact Hco].
  - split; [exact Hdb|]. split; [exact Htr|]. split; [intros q ok [[=]|[]]|].
    split; [intros call [[= <-]|[]]; reflexivity|]. now left.
  - split; [exact Hdb|]. split; [exact Htr|].
    split; [intros q ok [[=]|[[=]|[]]]|].
    split; [intros call [[= <-]|[[=]|[]]]; reflexivity|].
    right. exists (sweep_insert c gone). split; [right; now left | exact Hco].
  - exfalso. destruct Hwhy as [(_ & H)|[(l' & H)|(l' & H)]]; congruence.
  - exfalso. destruct Hwhy as [(_ & H)|[(l' & H)|(l' & H)]]; [congruence| |];
      revert Hs; unfold succeeds; rewrite H; discriminate.
Qed.

(** Right after a sweep that went through, a second sweep at the same
    instant, or an earlier one, finds nobody to remove and changes
    nothing. *)
Theorem sweep_twice (c c2 : clock) (w w1 : world) :
  unique_names w ->
  succeeds 3 w ->
  removeInactiveUsers c w = (Return tt, w1) ->
  Date_now c2 <= Date_now c ->
  succeeds 1 w1 ->
  exists w2,
    removeInactiveUsers c2 w1 = (Return tt, w2) /\
    db w2 = db w1 /\
    trace w2 = trace w1 ++ [(sweep_find c2, true)].
Proof.
  intros Hu Hs Hrun Hc Hs1.
  destruct (sweep_when_all_succeed c w Hs) as (w' & Hrun' & Hps & _).
  rewrite Hrun in Hrun'. injection Hrun' as <-.
  rewrite (deleted_by_name c _ Hu) in Hps.
  assert (Hnone : filter (inactive c2) (participants (db w1)) = []).
  { destruct (filter (inactive c2) (participants (db w1))) as [|p l] eqn:Hf;
      [reflexivity|]. exfalso.
    assert (Hp : In p (p :: l)) by now left. rewrite <- Hf in Hp.
    apply In_filter in Hp as [Hi Hp]. rewrite Hps in Hp.
    apply In_filter in Hp as [Ha _]. unfold inactive in *. lia. }
  destruct (sweep_outcomes c2 w1) as (w2 & calls & Hrun2 & Htr & Hcases).
  exists w2. split; [exact Hrun2|].
  destruct Hcases as [((l & Hl) & _)|[(_ & _ & -> & Hdb & _)
       |[(_ & Hg & _)|[(_ & Hg & _)|(_ & Hg & _)]]]]; try contradiction; auto.
  exfalso. exact (succeeds_head _ _ Hs1 _ Hl).
Qed.

(** With the timer firing every 15 seconds, a participant that falls
    silent is swept at the latest 25 seconds after its last heartbeat:
    some sweep falls between 10 and 25 seconds after it, and that sweep,
    if its calls go through, removes the participant. *)
Theorem silent_participant_swept_within_25s (started : Z) (p : participant)
    (w : world) (zone : Z) :
  started <= lastStatus p + 10000 ->
  unique_names w -> succeeds 3 w -> In p (participants (db w)) ->
  exists k,
    lastStatus p + 10000 <= tick started k <= lastStatus p + 25000 /\
    let c := {| epoch_ms := tick started k; utc_offset := zone |} in
    ~ In p (participants (db (snd (removeInactiveUsers c w)))).
Proof.
  intros Hstart Hu Hs Hp. unfold tick, sweep_interval.
  set (d := lastStatus p + 10000 - started).
  exists (Z.to_nat ((d + 14999) / 15000 - 1)).
  assert (Hk : 0 <= (d + 14999) / 15000) by (apply Z.div_pos; lia).
  assert (Hdiv : 15000 * ((d + 14999) / 15000) <= d + 14999
                 /\ d + 14999 < 15000 * ((d + 14999) / 15000) + 15000).
  { pose proof (Z.mul_div_le (d + 14999) 15000 ltac:(lia)).
    pose proof (Z.mul_succ_div_gt (d + 14999) 15000 ltac:(lia)). lia. }
  assert (Hrange : lastStatus p + 10000 <=
                   started + 15000 * Z.of_nat (S (Z.to_nat ((d + 14999) / 15000 - 1)))
                   <= lastStatus p + 25000).
  { destruct (Z.eq_dec ((d + 14999) / 15000) 0) as [H0|H0].
    - rewrite H0 in *. simpl. unfold d in *. lia.
    - rewrite Nat2Z.inj_succ, Z2Nat.id by lia. unfold d in *. lia. }
  split; [exact Hrange|]. cbv zeta.
  set (c := {| epoch_ms := _; utc_offset := zone |}).
  destruct (sweep_when_all_succeed c w Hs) as (w' & Hrun & Hps & _).
  rewrite Hrun. simpl. rewrite Hps, (deleted_by_name c _ Hu), In_filter.
  intros [Ha _]. apply Ha. unfold inactive, c. simpl. lia.
Qed.

(** ** Requests, one after another *)

Lemma known_after_insert n c w w1 :
  participants (db w1) = participants (db w) ++ [newcomer c n] ->
  known n w1.
Proof.
  intros Hps. exists (newcomer c n). split; [|reflexivity].
  rewrite Hps. apply in_app_iff. right. now left.
Qed.

(** A sweep leaves in place a participant whose name no participant
    last heard of 10 seconds ago or earlier bears. *)
Lemma sweep_keeps_unshared c w p :
  In p (participants (db w)) ->
  (forall g, In g (participants (db w)) -> inactive c g -> name g <> name p) ->
  In p (participants (db (snd (removeInactiveUsers c w)))).
Proof.
  intros Hp Hfree.
  destruct (sweep_cases c w) as (w' & calls & -> & _ & Hcases). simpl.
  destruct Hcases as [(_ & -> & _)|[(_ & _ & ->)|[(_ & -> & _)
                     |[(_ & _ & -> & _)|(_ & _ & _ & -> & _)]]]];
    try assumption.
  rewrite deleted_names. apply In_filter. split; [|exact Hp].
  rewrite list_elem_of_In. intros (g & Hn & Hg)%in_map_iff.
  apply In_filter in Hg as [Hi Hg]. exact (Hfree g Hg Hi Hn).
Qed.

(** What a registration answered 201 leaves behind: the participant is
    listed, last, by [GET /participants]; the name is taken (409 from
    then on); its heartbeats are answered 200; and no sweep within the
    next 10 seconds removes it. *)
Theorem registration_takes_effect (c : clock) (body : Js.json)
    (w : world) (r : response) (w1 : world) :
  post_participants c body w = (Return r, w1) ->
  status r = 201 ->
  let n := Js.field body "name" in
  let p := {| name := n; lastStatus := Date_now c |} in
  participants (db w1) = participants (db w) ++ [p] /\
  (succeeds 1 w1 ->
   exists w2,
     get_participants w1 =
       (Return (send 200 (ParticipantList (participants (db w) ++ [p]))), w2)) /\
  (forall c2 body2,
     accepted schemaName body2 -> Js.field body2 "name" = n ->
     succeeds 1 w1 ->
     exists w2,
       post_participants c2 body2 w1 =
         (Return (send 409 (Text "Nome de usuário indisponível")), w2) /\
       db w2 = db w1) /\
  (forall c2, succeeds 2 w1 ->
     exists r2 w2,
       post_status c2 n w1 = (Return r2, w2) /\ status r2 = 200) /\
  (forall c2, Date_now c2 - Date_now c < 10000 ->
     In p (participants (db (snd (removeInactiveUsers c2 w1))))).
Proof.
  intros Hrun H201 n p.
  destruct (post_participants_outcomes c body w) as (r0 & w0 & Hrun0 & _ & Hcases).
  rewrite Hrun in Hrun0. injection Hrun0 as <- <-. fold n in Hcases.
  destruct Hcases as [(_ & H & _)|(Hc & [(H & _)|[(_ & _ & H & _)
       |[(_ & H & _)|[(_ & H & _)|(Hn & _ & _ & Hps & _)]]]])];
    try (rewrite H in H201; discriminate H201); try congruence.
  pose proof (known_after_insert _ _ _ _ Hps) as Hk.
  split; [exact Hps|]. split; [|split; [|split]].
  - intros Hs. destruct (get_participants_outcomes w1)
      as (r2 & w2 & Hrun2 & _ & [(_ & -> & _)|((l & Hl) & _)]).
    + exists w2. rewrite Hrun2, Hps. reflexivity.
    + exfalso. exact (succeeds_head _ _ Hs _ Hl).
  - intros c2 body2 Hc2 Hname Hs.
    destruct (post_participants_outcomes c2 body2 w1)
      as (r2 & w2 & Hrun2 & _ & Hcases). rewrite Hname in Hcases.
    destruct Hcases as [(H & _)|(_ & [(_ & _ & l & Hl)|[(_ & _ & -> & Hdb & _)
         |[(H & _)|[(H & _)|(H & _)]]]])]; try contradiction; eauto.
    exfalso. exact (succeeds_head _ _ Hs _ Hl).
  - intros c2 Hs.
    destruct (post_status_cases c2 n w1)
      as (r2 & w2 & Hrun2 & _ & [(H & _)|[(_ & _ & H & _)|(_ & [H|[_ H]] & _)]]);
      try contradiction; eauto.
    destruct H. revert Hs. apply succeeds_fewer. lia.
  - intros c2 Hc2.
    apply sweep_keeps_unshared.
    + rewrite Hps. apply in_app_iff. right. now left.
    + intros g Hg Hi He. rewrite Hps in Hg.
      apply in_app_iff in Hg as [Hg|[<-|[]]].
      * apply Hn. exists g. split; [exact Hg|]. now rewrite He.
      * unfold inactive, newcomer in Hi. simpl in Hi. lia.
Qed.

Lemma drop_all_but_last {A} (l : list A) (x : A) :
  drop (length (l ++ [x]) - 1) (l ++ [x]) = [x].
Proof.
  rewrite length_app. simpl. replace (length l + 1 - 1)%nat with (length l) by lia.
  now rewrite drop_app_length.
Qed.

(** What a message answered 201 leaves behind: whoever may read it
    (its receiver, its sender, anybody when it is for "Todos") gets it
    as the last entry of [GET /messages], and alone with a limit of 1;
    nobody else ever gets it.  Its sender is the name of a participant:
    the [user] header, unless a participant is stored under null and
    the request came without one. *)
Theorem posted_then_listed (c : clock) (user : option string)
    (content : Js.json) (w : world) (r : response) (w1 : world) :
  post_messages c user content w = (Return r, w1) ->
  status r = 201 ->
  known user w /\
  ((forall p, In p (participants (db w)) -> name p <> None) ->
   exists sender, user = Some sender) /\
  let m := {| from := user;
              to := Js.field content "to";
              text := Js.field content "text";
              type := Js.field content "type";
              time := now c |} in
  messages (db w1) = messages (db w) ++ [m] /\
  (forall reader, visible reader m -> succeeds 1 w1 ->
     exists w2,
       get_messages reader None w1 =
         (Return (send 200 (MessageList
            (filter (visible reader) (messages (db w)) ++ [m]))), w2)) /\
  (forall reader l x, visible reader m -> succeeds 1 w1 ->
     Js.plus l = Some x -> integer x = Some 1 ->
     exists w2,
       get_messages reader (Some l) w1 =
         (Return (send 200 (MessageList [m])), w2)) /\
  (forall reader limit r2 w2 out,
     ~ visible reader m ->
     get_messages reader limit w1 = (Return r2, w2) ->
     body r2 = MessageList out -> ~ In m out).
Proof.
  intros Hrun H201.
  destruct (post_messages_outcomes c user content w)
    as (r0 & w0 & Hrun0 & _ & _ & Hcases).
  rewrite Hrun in Hrun0. injection Hrun0 as <- <-.
  destruct Hcases as [(_ & H & _)|(Hc & [(H & _)|[(_ & _ & H & _)
       |[(_ & H & _)|(Hk & _ & _ & Hms)]]])];
    try (rewrite H in H201; discriminate H201); try congruence.
  split; [exact Hk|]. split.
  { intros Hnamed. destruct Hk as (p & Hp & ->).
    destruct (name p) as [sender|] eqn:Hn; [eauto|].
    now destruct (Hnamed p Hp). }
  fold (posted c user content).
  set (m := posted c user content) in *. cbv zeta.
  split; [exact Hms|].
  assert (Hshown : forall reader, visible reader m ->
            filter (visible reader) (messages (db w1)) =
            filter (visible reader) (messages (db w)) ++ [m]).
  { intros reader Hv. rewrite Hms, filter_app. f_equal.
    rewrite filter_cons. now destruct (decide (visible reader m)). }
  split; [|split].
  - intros reader Hv Hs.
    destruct (get_messages_outcomes reader None w1)
      as [(l & [=] & _)
         |(r2 & w2 & Hrun2 & _ & [((l & x & [=] & _) & _)|[((l & Hl) & _)
           |(_ & [(_ & ->)|(l & x & [=] & _)])]])].
    + exfalso. exact (succeeds_head _ _ Hs _ Hl).
    + exists w2. now rewrite Hrun2, Hshown.
  - intros reader l x Hv Hs Hx Hl.
    destruct (get_messages_outcomes reader (Some l) w1)
      as [(l' & [= <-] & Hnone & _)
         |(r2 & w2 & Hrun2 & _ & [((l' & x' & [= <-] & Hx' & Hn) & _)
           |[((l' & Hl') & _)
            |(_ & [([=] & _)|(l' & x' & [= <-] & Hx' & _ & ->)])]])].
    + congruence.
    + destruct Hn. rewrite Hx in Hx'. injection Hx' as <-.
      exists 1. split; [exact Hl | lia].
    + exfalso. exact (succeeds_head _ _ Hs _ Hl').
    + rewrite Hx in Hx'. injection Hx' as <-.
      exists w2. rewrite Hrun2, (slice_last _ _ _ Hl) by lia.
      rewrite Hshown by exact Hv. change (Z.to_nat 1) with 1%nat.
      now rewrite drop_all_but_last.
  - intros reader limit r2 w2 out Hv Hrun2 Hbody Hin.
    destruct (get_messages_outcomes reader limit w1)
      as [(l & _ & _ & Hrun3)|(r3 & w3 & Hrun3 & _ & Hcases)];
      [congruence|].
    rewrite Hrun2 in Hrun3. injection Hrun3 as <- <-.
    destruct Hcases as [(_ & -> & _)|[(_ & ->)
                       |(_ & [(_ & ->)|(l & x & _ & _ & _ & ->)])]];
      try discriminate Hbody; simpl in Hbody; injection Hbody as <-;
      apply Hv.
    + apply In_filter in Hin. tauto.
    + unfold Js.slice in Hin. apply list_elem_of_In, subseteq_drop in Hin.
      apply list_elem_of_In, In_filter in Hin. tauto.
Qed.

(** Once a sweep has removed a participant, its name is nobody's: a
    heartbeat under it is answered 404, a message from it 422, and the
    name can be registered again. *)
Theorem swept_name_is_free (c : clock) (w w1 : world) (p : participant) :
  unique_names w ->
  succeeds 3 w ->
  In p (participants (db w)) ->
  inactive c p ->
  removeInactiveUsers c w = (Return tt, w1) ->
  ~ known (name p) w1 /\
  (forall c2, succeeds 1 w1 ->
     exists r2 w2,
       post_status c2 (name p) w1 = (Return r2, w2) /\
       status r2 = 404) /\
  (forall c2 content, accepted schemaMessage content -> succeeds 1 w1 ->
     exists w2,
       post_messages c2 (name p) content w1 =
         (Return (send 422 (Text "Remetente não encontrado")), w2)) /\
  (forall c2 content,
     accepted schemaName content ->
     Js.field content "name" = name p ->
     succeeds 3 w1 ->
     exists w2,
       post_participants c2 content w1 = (Return (sendStatus 201), w2) /\
       In {| name := name p; lastStatus := Date_now c2 |}
          (participants (db w2))).
Proof.
  intros Hu Hs Hp Hi Hrun.
  destruct (sweep_when_all_succeed c w Hs) as (w' & Hrun' & Hps & _).
  rewrite Hrun in Hrun'. injection Hrun' as <-.
  rewrite (deleted_by_name c _ Hu) in Hps.
  assert (Hfree : ~ known (name p) w1).
  { intros (q & Hq & Hn). rewrite Hps in Hq.
    apply In_filter in Hq as [Ha Hq].
    assert (p = q) by (apply (name_injective (participants (db w))); auto).
    subst q. contradiction. }
  split; [exact Hfree|]. split; [|split].
  - intros c2 Hs1.
    destruct (post_status_cases c2 (name p) w1)
      as (r2 & w2 & Hrun2 & _ & [(_ & _ & pre & q & post & Hw & Hn & _)
                                |[(H & _)|(_ & [H|[H _]] & _)]]);
      try contradiction; eauto.
    destruct Hfree. exists q. split; [|exact Hn].
    rewrite Hw. apply in_app_iff. right. now left.
  - intros c2 content Hc Hs1.
    destruct (post_messages_outcomes c2 (name p) content w1)
      as (r2 & w2 & Hrun2 & _ & _ & [(H & _)|(_ & [(_ & _ & l & Hl)
         |[(_ & _ & -> & _)|[(H & _)|(H & _)]]])]);
      try contradiction; eauto.
    exfalso. exact (succeeds_head _ _ Hs1 _ Hl).
  - intros c2 content Hc Hn Hs3.
    destruct (post_participants_outcomes c2 content w1)
      as (r2 & w2 & Hrun2 & _ & Hcases). rewrite Hn in Hcases.
    assert (Hno : forall l, (faults w1 = true :: l \/
                             faults w1 = false :: true :: l \/
                             faults w1 = false :: false :: true :: l) -> False).
    { intros l H. revert Hs3. unfold succeeds.
      destruct H as [-> |[-> | ->]]; discriminate. }
    destruct Hcases as [(H & _)|(_ & [(_ & _ & l & Hl)|[(H & _)
         |[(_ & _ & _ & l & Hl)|[(_ & _ & _ & _ & l & Hl)|(_ & _ & -> & Hps2 & _)]]]])];
      try contradiction; try (exfalso; apply (Hno l); tauto).
    exists w2. split; [exact Hrun2|]. rewrite Hps2. apply in_app_iff. right. now left.
Qed.

(** ** What the schemas turn down *)

Lemma unknown_member_not_accepted schema members k v :
  In (k, v) members -> k <> "__proto__" ->
  (forall ks, In ks schema -> Joi.key ks <> k) ->
  ~ accepted schema (Js.JObject members).
Proof.
  intros Hin Hp Hk (ms & [= <-] & _ & Hu).
  destruct (Hu k v Hin Hp) as (ks & Hks & He). exact (Hk ks Hks He).
Qed.

(** Both schemas are closed: a body with a member the schema does not
    name, other than [__proto__], is answered 422, whatever else it
    holds, and nothing is touched. *)
Theorem unexpected_member_rejected (c : clock) (user : option string)
    (members : list (string * Js.json)) (k : string) (v : Js.json)
    (w : world) :
  In (k, v) members ->
  k <> "__proto__" ->
  (k <> "name" ->
   exists r,
     post_participants c (Js.JObject members) w = (Return r, w) /\
     status r = 422) /\
  (k <> "to" -> k <> "text" -> k <> "type" ->
   exists r,
     post_messages c user (Js.JObject members) w = (Return r, w) /\
     status r = 422).
Proof.
  intros Hin Hp. split.
  - intros Hk.
    assert (Hn : ~ accepted schemaName (Js.JObject members)).
    { apply (unknown_member_not_accepted _ _ k v Hin Hp).
      intros ks [<-|[]]. simpl. congruence. }
    destruct (post_participants_outcomes c (Js.JObject members) w)
      as (r & w' & Hrun & _ & [(_ & H & ->)|(H & _)]); [eauto | contradiction].
  - intros H1 H2 H3.
    assert (Hn : ~ accepted schemaMessage (Js.JObject members)).
    { apply (unknown_member_not_accepted _ _ k v Hin Hp).
      intros ks [<-|[<-|[<-|[]]]]; simpl; congruence. }
    destruct (post_messages_outcomes c user (Js.JObject members) w)
      as (r & w' & Hrun & _ & _ & [(_ & H & ->)|(H & _)]); [eauto | contradiction].
Qed.

(** A client can post messages and private messages only: a body in
    which [type], its own or else the one its member [__proto__]
    holds, is anything else, "status" included, is answered 422 and
    nothing is stored; and the message stored for a request answered
    201 has the type message or private_message, or null when only
    [__proto__] held the type. *)
Theorem only_two_types_postable (c : clock) (user : option string)
    (content : Js.json) (w : world) :
  ((forall members,
      content = Js.JObject members ->
      Joi.lookup "type" members <> Some (Js.JString "message") /\
      Joi.lookup "type" members <> Some (Js.JString "private_message")) ->
   exists r,
     post_messages c user content w = (Return r, w) /\ status r = 422) /\
  (forall r w1,
     post_messages c user content w = (Return r, w1) -> status r = 201 ->
     exists m,
       messages (db w1) = messages (db w) ++ [m] /\
       (type m = Some "message" \/ type m = Some "private_message"
        \/ type m = None)).
Proof.
  split.
  - intros Hty.
    assert (Hn : ~ accepted schemaMessage content).
    { intros (ms & -> & Hk & _). destruct (Hty ms eq_refl) as [H1 H2].
      destruct (Hk {| Joi.key := "type";
                      Joi.only := Some ["message"; "private_message"] |})
        as (y & Hy & Hin); [right; right; now left|].
      simpl in *. destruct Hin as [<-|[<-|[]]]; contradiction. }
    destruct (post_messages_outcomes c user content w)
      as (r & w' & Hrun & _ & _ & [(_ & H & ->)|(H & _)]); [eauto | contradiction].
  - intros r w1 Hrun H201.
    destruct (post_messages_outcomes c user content w)
      as (r0 & w0 & Hrun0 & _ & _ & Hcases).
    rewrite Hrun in Hrun0. injection Hrun0 as <- <-.
    destruct Hcases as [(_ & H & _)|(Hc & [(H & _)|[(_ & _ & H & _)
         |[(_ & H & _)|(_ & _ & _ & Hms)]]])];
      try (rewrite H in H201; discriminate H201); try congruence.
    exists (posted c user content). split; [exact Hms|].
    apply (accepted_message_fields _ Hc).
Qed.

(** Two registrations of one name that run side by side: the second
    looked the name up before the first, which found the name free too,
    inserted it; both are answered 201 and the collection holds the
    name twice. *)
Theorem overlapping_registrations_share_a_name (c c2 : clock)
    (body : Js.json) (w : world) :
  accepted schemaName body ->
  ~ known (Js.field body "name") w ->
  succeeds 3 w ->
  let first := fun s =>
    post_participants c body
      {| db := s; faults := []; trace := []; console := [] |} in
  fst (first (db w)) = Return (sendStatus 201) /\
  exists w',
    post_participants_interleaved c2 body
      (fun s => db (snd (first s))) (fun s => s) w
      = (Return (sendStatus 201), w') /\
    participants (db w') =
      participants (db w)
      ++ [ {| name := Js.field body "name"; lastStatus := Date_now c |};
           {| name := Js.field body "name"; lastStatus := Date_now c2 |} ].
Proof.
  intros Hc Hk Hs first.
  assert (Hfirst : first (db w) =
            (Return (sendStatus 201),
             {| db := {| participants := participants (db w)
                           ++ [newcomer c (Js.field body "name")];
                         messages := messages (db w)
                           ++ [arrival c (Js.field body "name")] |};
                faults := [];
                trace := [ (Mongo.ParticipantsFindOne
                              (Mongo.PName (Js.field body "name")), true);
                           (Mongo.ParticipantsInsertOne
                              (newcomer c (Js.field body "name")), true);
                           (Mongo.MessagesInsertOne
                              (arrival c (Js.field body "name")), true) ];
                console := [] |})).
  { subst first. cbv beta. unfold post_participants.
    rewrite (proj2 (validation_passes_iff _ _) Hc).
    destruct w as [[ps ms] fs tr co]. unfold known in Hk. simpl in Hk.
    run_db. rewrite (findOne_unknown _ _ Hk). reflexivity. }
  split; [now rewrite Hfirst|].
  clearbody first.
  unfold post_participants_interleaved.
  rewrite (proj2 (validation_passes_iff _ _) Hc).
  faults_cases w; run_db; rewrite (findOne_unknown _ _ Hk); cbn;
    rewrite Hfirst; cbn;
    eexists; (split; [reflexivity|]); cbn; rewrite <- app_assoc; reflexivity.
Qed.

(** ** The further properties on the example room *)

(** A heartbeat from [zeca], who never registered. *)
Lemma rejected_and_reads_change_nothing_witness :
  exists resp w',
    handle (at_ms 1700000015000) (PostStatus (Some "zeca")) (room [])
      = (Return resp, w') /\
    status resp = 404 /\ db w' = db (room []).
Proof.
  do 2 eexists. split; [reflexivity|]. split; [reflexivity|].
  apply (rejected_and_reads_change_nothing (at_ms 1700000015000)
           (PostStatus (Some "zeca")) (room []) _ _ eq_refl).
  left. simpl. lia.
Defined.

(** The participants are asked for while the store is down. *)
Lemma store_down_at_first_call_witness :
  faults (room [true]) = [true] /\
  ((exists resp w',
      handle (at_ms 1700000015000) GetParticipants (room [true])
        = (Return resp, w') /\
      db w' = db (room [true]) /\
      (status resp = 500 \/ (status resp = 422 /\ w' = room [true])))
   \/ (exists user l,
         GetParticipants = GetMessages user (Some l) /\ Js.plus l = None /\
         handle (at_ms 1700000015000) GetParticipants (room [true])
           = (Throw Mongo.TypeError, room [true]))).
Proof.
  split; [reflexivity|].
  exact (store_down_at_first_call (at_ms 1700000015000) GetParticipants
           (room [true]) [] eq_refl).
Defined.

(** [caio] registers and sends one heartbeat. *)
Lemma lastStatus_is_a_request_time_witness :
  let events :=
    [ Request (at_ms 1700000020000) (PostParticipants (name_body "caio"));
      Request (at_ms 1700000025000) (PostStatus (Some "caio")) ] in
  let caio := {| name := Some "caio"; lastStatus := 1700000025000 |} in
  In caio (participants (db (run events (start [])))) /\
  exists c r,
    In (Request c r) events /\ touches (Some "caio") r /\
    lastStatus caio = Date_now c.
Proof.
  intros events caio.
  assert (Hin : In caio (participants (db (run events (start [])))))
    by (left; reflexivity).
  split; [exact Hin|].
  exact (lastStatus_is_a_request_time events [] caio Hin).
Defined.

(** A sweep five seconds after everybody was last heard of. *)
Lemma sweep_without_effect_witness :
  succeeds 1 (room []) /\
  filter (inactive (at_ms 1700000010000)) (participants (db (room []))) = [] /\
  exists w' calls,
    removeInactiveUsers (at_ms 1700000010000) (room []) = (Return tt, w') /\
    db w' = db (room []) /\
    trace w' = trace (room []) ++ calls /\
    (forall q ok, ~ In (Mongo.ParticipantsDeleteMany q, ok) calls).
Proof.
  split; [reflexivity|]. split; [reflexivity|].
  destruct (sweep_without_effect (at_ms 1700000010000) (room []))
    as (w' & calls & Hrun & Hdb & Htr & Hdel & _).
  { left. split; reflexivity. }
  exists w', calls. auto.
Defined.

(** Two sweeps in a row, both at 22:13:40. *)
Lemma sweep_twice_witness :
  let c := at_ms 1700000020000 in
  let w1 := snd (removeInactiveUsers c (room [])) in
  unique_names (room []) /\ succeeds 3 (room []) /\ succeeds 1 w1 /\
  exists w2,
    removeInactiveUsers c w1 = (Return tt, w2) /\ db w2 = db w1.
Proof.
  intros c w1.
  split; [apply room_names_unique|]. split; [reflexivity|].
  split; [reflexivity|].
  destruct (sweep_twice c c (room []) w1 (room_names_unique [])
              eq_refl eq_refl ltac:(lia) eq_refl)
    as (w2 & Hrun & Hdb & _).
  exists w2. auto.
Defined.

(** [ana], silent since 22:13:25, and a server started at 22:13:20. *)
Lemma silent_participant_swept_within_25s_witness :
  1700000000000 <= lastStatus ana + 10000 /\
  unique_names (room []) /\ succeeds 3 (room []) /\
  In ana (participants (db (room []))) /\
  exists k,
    lastStatus ana + 10000 <= tick 1700000000000 k <= lastStatus ana + 25000 /\
    ~ In ana (participants (db (snd (removeInactiveUsers
         {| epoch_ms := tick 1700000000000 k; utc_offset := -180 |}
         (room []))))).
Proof.
  assert (H1 : 1700000000000 <= lastStatus ana + 10000) by (simpl; lia).
  assert (H2 : In ana (participants (db (room [])))) by now left.
  split; [exact H1|]. split; [apply room_names_unique|].
  split; [reflexivity|]. split; [exact H2|].
  exact (silent_participant_swept_within_25s 1700000000000 ana (room [])
           (-180) H1 (room_names_unique []) eq_refl H2).
Defined.

(** [caio] registers in the room. *)
Lemma registration_takes_effect_witness :
  exists r w1,
    post_participants (at_ms 1700000020000) (name_body "caio") (room [])
      = (Return r, w1) /\
    status r = 201 /\
    participants (db w1) =
      [ana; bia; {| name := Some "caio"; lastStatus := 1700000020000 |}] /\
    (exists w2,
       get_participants w1 =
         (Return (send 200 (ParticipantList
            [ana; bia; {| name := Some "caio"; lastStatus := 1700000020000 |}])),
          w2)) /\
    In {| name := Some "caio"; lastStatus := 1700000020000 |}
       (participants (db (snd (removeInactiveUsers (at_ms 1700000029999) w1)))).
Proof.
  do 2 eexists. split; [reflexivity|]. split; [reflexivity|].
  destruct (registration_takes_effect (at_ms 1700000020000)
              (name_body "caio") (room []) _ _ eq_refl eq_refl)
    as (Hps & Hlist & _ & _ & Hkept).
  split; [exact Hps|]. split; [exact (Hlist eq_refl)|].
  apply Hkept. simpl. lia.
Defined.

(** [ana] whispers to [bia]. *)
Lemma posted_then_listed_witness :
  exists r w1,
    post_messages (at_ms 1700000020000) (Some "ana")
      (message_body "bia" "oi" "private_message") (room [])
      = (Return r, w1) /\
    status r = 201 /\
    known (Some "ana") (room []) /\
    messages (db w1) =
      talk ++ [ {| from := Some "ana"; to := Some "bia"; text := Some "oi";
                   type := Some "private_message"; time := "19:13:40" |} ].
Proof.
  do 2 eexists. split; [reflexivity|]. split; [reflexivity|].
  destruct (posted_then_listed (at_ms 1700000020000) (Some "ana")
              (message_body "bia" "oi" "private_message") (room []) _ _
              eq_refl eq_refl)
    as (Hk & _ & Hms & _).
  split; [exact Hk | exact Hms].
Defined.

(** [ana] is swept at 22:13:40. *)
Lemma swept_name_is_free_witness :
  let c := at_ms 1700000020000 in
  let w1 := snd (removeInactiveUsers c (room [])) in
  unique_names (room []) /\ succeeds 3 (room []) /\
  In ana (participants (db (room []))) /\ inactive c ana /\
  removeInactiveUsers c (room []) = (Return tt, w1) /\
  ~ known (Some "ana") w1.
Proof.
  intros c w1.
  assert (Hin : In ana (participants (db (room [])))) by now left.
  assert (Hi : inactive c ana) by (unfold inactive; simpl; lia).
  split; [apply room_names_unique|]. split; [reflexivity|].
  split; [exact Hin|]. split; [exact Hi|]. split; [reflexivity|].
  exact (proj1 (swept_name_is_free c (room []) w1 ana (room_names_unique [])
                  eq_refl Hin Hi eq_refl)).
Defined.

(** A registration that also gives an age. *)
Lemma unexpected_member_rejected_witness :
  let members := [("name", Js.JString "dani"); ("age", Js.JNumber "30")] in
  In ("age", Js.JNumber "30") members /\ "age" <> "__proto__" /\
  "age" <> "name" /\
  exists r,
    post_participants (at_ms 1700000020000) (Js.JObject members) (room [])
      = (Return r, room []) /\
    status r = 422.
Proof.
  intros members.
  assert (Hin : In ("age", Js.JNumber "30") members) by (right; now left).
  assert (Hp : "age" <> "__proto__") by discriminate.
  assert (Hne : "age" <> "name") by discriminate.
  split; [exact Hin|]. split; [exact Hp|]. split; [exact Hne|].
  exact (proj1 (unexpected_member_rejected (at_ms 1700000020000) None members
                  "age" (Js.JNumber "30") (room []) Hin Hp) Hne).
Defined.

(** A client tries to post a notice of its own. *)
Lemma only_two_types_postable_witness :
  let content := message_body "Todos" "sai da sala..." "status" in
  (forall members,
     content = Js.JObject members ->
     Joi.lookup "type" members <> Some (Js.JString "message") /\
     Joi.lookup "type" members <> Some (Js.JString "private_message")) /\
  exists r,
    post_messages (at_ms 1700000020000) (Some "ana") content (room [])
      = (Return r, room []) /\
    status r = 422.
Proof.
  intros content.
  assert (H : forall members,
            content = Js.JObject members ->
            Joi.lookup "type" members <> Some (Js.JString "message") /\
            Joi.lookup "type" members <> Some (Js.JString "private_message"))
    by (intros members [= <-]; split; discriminate).
  split; [exact H|].
  exact (proj1 (only_two_types_postable (at_ms 1700000020000) (Some "ana")
                  content (room [])) H).
Defined.

(** [caio] registers twice at once, from the empty room. *)
Lemma overlapping_registrations_share_a_name_witness :
  let c := at_ms 1700000020000 in
  let body := name_body "caio" in
  let first := fun s =>
    post_participants c body
      {| db := s; faults := []; trace := []; console := [] |} in
  accepted schemaName body /\
  ~ known (Js.field body "name") (start []) /\
  succeeds 3 (start []) /\
  exists w',
    post_participants_interleaved c body
      (fun s => db (snd (first s))) (fun s => s) (start [])
      = (Return (sendStatus 201), w') /\
    participants (db w') =
      [ {| name := Some "caio"; lastStatus := 1700000020000 |};
        {| name := Some "caio"; lastStatus := 1700000020000 |} ].
Proof.
  intros c body first.
  assert (Hc : accepted schemaName body)
    by (apply violations_nil; reflexivity).
  assert (Hk : ~ known (Js.field body "name") (start []))
    by (intros (p & [] & _)).
  split; [exact Hc|]. split; [exact Hk|]. split; [reflexivity|].
  exact (proj2 (overlapping_registrations_share_a_name c c body (start [])
                  Hc Hk eq_refl)).
Defined.
